(** * goesmirror: a verification development for [mirror_s3]

    The program under study is [goesmirror/goesmirror.py]: the function
    [mirror_s3] with its two closures [should_download] and [download].
    Python values are embedded shallowly: [str] as [string], [int] as [Z],
    [datetime] as a record, the remote object store and the local file
    system as explicit state, exceptions as an error result, and the
    observable actions of a run as a list of events. *)

From Stdlib Require Import ZArith Lia List String Ascii Bool.
From stdpp Require Import gmap strings list fin_maps.

Local Open Scope string_scope.
Local Open Scope list_scope.
Local Open Scope Z_scope.

(* stdpp marks [String.append] as never simplified; the proofs below compute
   with it. *)
Local Arguments String.append !s1 s2 : simpl nomatch.

(** ** Exceptions *)

(** The exception classes that matter to the control flow of [mirror_s3].
    [OtherError] stands for every other exception a library call may raise
    (connection errors, permission errors, ...), tagged by its class name. *)
Inductive error : Type :=
  | FileNotFoundError
  | IndexError
  | ValueError
  | OverflowError
  | OtherError (name : string).

Inductive result (A : Type) : Type :=
  | Ok (a : A)
  | Err (e : error).
Arguments Ok {A} a.
Arguments Err {A} e.

Definition error_eqb (a b : error) : bool :=
  match a, b with
  | FileNotFoundError, FileNotFoundError => true
  | IndexError, IndexError => true
  | ValueError, ValueError => true
  | OverflowError, OverflowError => true
  | OtherError x, OtherError y => String.eqb x y
  | _, _ => false
  end.

Definition is_fnf (e : error) : bool :=
  match e with FileNotFoundError => true | _ => false end.

(** ** Python strings *)

Module Str.

(** [s.split(sep)] for a one-character separator: never an empty list. *)
Fixpoint split (sep : ascii) (s : string) : list string :=
  match s with
  | EmptyString => [EmptyString]
  | String c s' =>
      if Ascii.eqb c sep then EmptyString :: split sep s'
      else match split sep s' with
           | [] => [String c EmptyString]
           | w :: ws => String c w :: ws
           end
  end.

(** [sep.join(l)] *)
Fixpoint join (sep : string) (l : list string) : string :=
  match l with
  | [] => ""
  | x :: xs =>
      match xs with
      | [] => x
      | _ :: _ => x +:+ sep +:+ join sep xs
      end
  end.

(** [l[-1]] on the result of a split (which is never empty). *)
Definition last_field (l : list string) : string := List.last l "".

(** Python slice bounds: a negative index counts from the end, and both
    bounds are clamped to [0, len]. *)
Definition norm_index (len i : Z) : Z :=
  if i <? 0 then Z.max 0 (len + i) else Z.min len i.

(** [s[i:j]] *)
Definition slice (i j : Z) (s : string) : string :=
  let n := Z.of_nat (String.length s) in
  let a := norm_index n i in
  let b := norm_index n j in
  if a <? b then String.substring (Z.to_nat a) (Z.to_nat (b - a)) s else "".

Definition startswith_sep (s : string) : bool :=
  match s with
  | String c _ => Ascii.eqb c "/"
  | EmptyString => false
  end.

Fixpoint endswith_sep (s : string) : bool :=
  match s with
  | EmptyString => false
  | String c EmptyString => Ascii.eqb c "/"
  | String _ t => endswith_sep t
  end.

Definition is_empty (s : string) : bool :=
  match s with EmptyString => true | _ => false end.

(** One step of [posixpath.join]: an absolute component replaces the path
    built so far; otherwise it is appended, with a separator unless the
    path is empty or already ends with one. *)
Definition path_join2 (path b : string) : string :=
  if startswith_sep b then b
  else if is_empty path || endswith_sep path then path +:+ b
  else path +:+ "/" +:+ b.

(** [os.path.join(a, *p)] on a POSIX system. *)
Definition os_path_join (a : string) (p : list string) : string :=
  fold_left path_join2 p a.

(** Does the character [c] occur in [s]? *)
Fixpoint contains (c : ascii) (s : string) : bool :=
  match s with
  | EmptyString => false
  | String d t => Ascii.eqb d c || contains c t
  end.

(** The decimal digit [d] (0..9) as a character. *)
Definition digit_char (d : Z) : ascii := ascii_of_N (Z.to_N (48 + d)).

(** A number printed with exactly [w] decimal digits, zero padded: what
    [strftime] produces for a field of width [w] whose value is below
    [10^w]. *)
Fixpoint zfill (w : nat) (n : Z) : string :=
  match w with
  | O => ""
  | S w' => zfill w' (n / 10) +:+ String (digit_char (n mod 10)) ""
  end.

(** The value of a decimal digit character. *)
Definition digit_val (c : ascii) : Z := Z.of_N (N_of_ascii c) - 48.

(** [int(s)] for a string of decimal digits. *)
Definition int_of_digits (s : string) : Z :=
  (fix go (acc : Z) (s : string) : Z :=
     match s with
     | EmptyString => acc
     | String c t => go (10 * acc + digit_val c) t
     end) 0 s.

End Str.

(** ** datetime *)

(** A naive [datetime]. The calendar date is held as its proleptic
    Gregorian ordinal ([date.toordinal()], day 1 is 0001-01-01), which is in
    bijection with (year, month, day); the year and the day of the year are
    computed from it the way CPython's [_ord2ymd] does. *)
Record datetime : Type := mkDatetime {
  ordinal : Z;
  hour : Z;
  minute : Z;
  second : Z;
  microsecond : Z
}.

Module DT.

Definition MAXORDINAL : Z := 3652059.   (* date(9999, 12, 31).toordinal() *)
Definition DI400Y : Z := 146097.
Definition DI100Y : Z := 36524.
Definition DI4Y : Z := 1461.

(** [_days_before_year(year)]: number of days before January 1st of year. *)
Definition days_before_year (year : Z) : Z :=
  let y := year - 1 in
  y * 365 + y / 4 - y / 100 + y / 400.

Definition is_leap (year : Z) : bool :=
  (year mod 4 =? 0) && (negb (year mod 100 =? 0) || (year mod 400 =? 0)).

(** The year of [_ord2ymd(n)]. *)
Definition ord2year (n : Z) : Z :=
  let n := n - 1 in
  let n400 := n / DI400Y in
  let n := n mod DI400Y in
  let n100 := n / DI100Y in
  let n := n mod DI100Y in
  let n4 := n / DI4Y in
  let n := n mod DI4Y in
  let n1 := n / 365 in
  let year := n400 * 400 + 1 + n100 * 100 + n4 * 4 + n1 in
  if (n1 =? 4) || (n100 =? 4) then year - 1 else year.

Definition year (d : datetime) : Z := ord2year (ordinal d).

(** [d.timetuple().tm_yday]: 1 for January 1st. *)
Definition yday (d : datetime) : Z := ordinal d - days_before_year (year d).

(** A well-formed datetime, as every Python [datetime] object is. *)
Definition valid (d : datetime) : Prop :=
  1 <= ordinal d <= MAXORDINAL /\ 0 <= hour d < 24 /\ 0 <= minute d < 60 /\
  0 <= second d < 60 /\ 0 <= microsecond d < 1000000.

Definition validb (d : datetime) : bool :=
  (1 <=? ordinal d) && (ordinal d <=? MAXORDINAL) &&
  (0 <=? hour d) && (hour d <? 24) && (0 <=? minute d) && (minute d <? 60) &&
  (0 <=? second d) && (second d <? 60) &&
  (0 <=? microsecond d) && (microsecond d <? 1000000).

(** Position on the time line, in hours and in microseconds. *)
Definition hour_index (d : datetime) : Z := ordinal d * 24 + hour d.

Definition to_microseconds (d : datetime) : Z :=
  ((hour_index d * 60 + minute d) * 60 + second d) * 1000000 + microsecond d.

(** [a <= b] and [a < b] on naive datetimes. *)
Definition le (a b : datetime) : bool := to_microseconds a <=? to_microseconds b.
Definition lt (a b : datetime) : bool := to_microseconds a <? to_microseconds b.

(** [datetime(t.year, t.month, t.day, t.hour)]: the same calendar date and
    hour, with minute, second and microsecond left at their default 0. *)
Definition hour_floor (t : datetime) : datetime :=
  {| ordinal := ordinal t; hour := hour t;
     minute := 0; second := 0; microsecond := 0 |}.

(** [d + timedelta(hours=k)]; [OverflowError] when the date leaves the
    range 0001-01-01 .. 9999-12-31. *)
Definition add_hours (d : datetime) (k : Z) : result datetime :=
  let total := hour d + k in
  let days := ordinal d + total / 24 in
  if (0 <? days) && (days <=? MAXORDINAL) then
    Ok {| ordinal := days; hour := total mod 24;
          minute := minute d; second := second d;
          microsecond := microsecond d |}
  else Err OverflowError.

(** [d.strftime("%Y")], [d.strftime("%j")], [d.strftime("%H")] *)
Definition strftime_Y (d : datetime) : string := Str.zfill 4 (year d).
Definition strftime_j (d : datetime) : string := Str.zfill 3 (yday d).
Definition strftime_H (d : datetime) : string := Str.zfill 2 (hour d).

End DT.

(** ** [datetime.strptime(s, "%Y%j%H%M%S")]

    CPython turns the format into a regular expression, one group per
    directive, each group an ordered alternation of fixed-length digit
    patterns; the expression is matched at the start of the string with
    backtracking, and text left over after the match is an error. *)
Module Strptime.

(** A character class [lo-hi]. *)
Definition atom : Type := (ascii * ascii)%type.

Definition in_atom (a : atom) (c : ascii) : bool :=
  (N_of_ascii (fst a) <=? N_of_ascii c)%N && (N_of_ascii c <=? N_of_ascii (snd a))%N.

Definition D : atom := ("0", "9")%char.
Definition C (c : ascii) : atom := (c, c).
Definition R (lo hi : ascii) : atom := (lo, hi).

(** Match a fixed sequence of classes: the matched text and what is left. *)
Fixpoint match_atoms (p : list atom) (s : string) : option (string * string) :=
  match p with
  | [] => Some ("", s)
  | a :: p' =>
      match s with
      | EmptyString => None
      | String c t =>
          if in_atom a c then
            match match_atoms p' t with
            | Some (m, r) => Some (String c m, r)
            | None => None
            end
          else None
      end
  end.

(** Match a sequence of groups; within a group the alternatives are tried in
    order, and a later group that fails sends the match back to the next
    alternative of an earlier one. *)
Fixpoint match_groups (gs : list (list (list atom))) (s : string)
  : option (list string * string) :=
  match gs with
  | [] => Some ([], s)
  | g :: gs' =>
      (fix alts (l : list (list atom)) : option (list string * string) :=
         match l with
         | [] => None
         | a :: l' =>
             match match_atoms a s with
             | Some (m, r) =>
                 match match_groups gs' r with
                 | Some (caps, rest) => Some (m :: caps, rest)
                 | None => alts l'
                 end
             | None => alts l'
             end
         end) g
  end.

(** The groups of [%Y], [%j], [%H], [%M] and [%S]. *)
Definition dir_Y : list (list atom) := [[D; D; D; D]].
Definition dir_j : list (list atom) :=
  [ [C "3"; C "6"; R "0" "6"]; [C "3"; R "0" "5"; D]; [R "1" "2"; D; D];
    [C "0"; R "1" "9"; D]; [C "0"; C "0"; R "1" "9"]; [R "1" "9"; D];
    [C "0"; R "1" "9"]; [R "1" "9"] ]%char.
Definition dir_H : list (list atom) :=
  [ [C "2"; R "0" "3"]; [R "0" "1"; D]; [D] ]%char.
Definition dir_M : list (list atom) := [ [R "0" "5"; D]; [D] ]%char.
Definition dir_S : list (list atom) :=
  [ [C "6"; R "0" "1"]; [R "0" "5"; D]; [D] ]%char.

Definition strptime (s : string) : result datetime :=
  match match_groups [dir_Y; dir_j; dir_H; dir_M; dir_S] s with
  | None => Err ValueError               (* does not match the format *)
  | Some (caps, rest) =>
      if negb (Str.is_empty rest) then Err ValueError  (* unconverted data *)
      else
        match caps with
        | [y; j; h; m; sec] =>
            let year := Str.int_of_digits y in
            let julian := Str.int_of_digits j in
            let second := Str.int_of_digits sec in
            (* date(year, 1, 1) needs 1 <= year; fromordinal needs a date in range *)
            let n := DT.days_before_year year + julian in
            if (year <? 1) || (DT.MAXORDINAL <? n) then Err ValueError
            else if 59 <? second then Err ValueError  (* second must be in 0..59 *)
            else Ok {| ordinal := n;
                       hour := Str.int_of_digits h;
                       minute := Str.int_of_digits m;
                       second := second;
                       microsecond := 0 |}
        | _ => Err ValueError
        end
  end.

End Strptime.

(** ** The world of a run: remote store, local file system, events *)

(** The anonymous S3 file system [fs]: what [fs.ls], [fs.info(..)["Size"]]
    and [fs.get] answer for a remote path. [get] yields the number of bytes
    it transfers. The store is read-only and fixed during a run. *)
Record remote_store : Type := {
  ls : string -> result (list string);
  info_size : string -> result Z;
  get : string -> result Z
}.

(** The local file system: regular files with their size, and directories. *)
Record local_fs : Type := {
  files : gmap string Z;
  dirs : gset string
}.

(** What a run does to the outside, in order. [EvTask] marks the creation of
    a delayed [download] task. *)
Inductive event : Type :=
  | EvLs (aws_dir : string)
  | EvInfo (aws_file : string)
  | EvIsfile (local_file : string)
  | EvGetsize (local_file : string)
  | EvMakedirs (local_dir : string)
  | EvTask (aws_file local_file : string)
  | EvGet (aws_file local_file : string)
  | EvPrint (msg : string).

(** How a computation ends: with a value, with an exception, or (for the
    model of the [while] loop only) with its fuel used up. *)
Inductive outcome (A : Type) : Type :=
  | Done (a : A)
  | Raised (e : error)
  | NoFuel.
Arguments Done {A} a.
Arguments Raised {A} e.
Arguments NoFuel {A}.

(** Computations over the local file system that log their events. An
    exception keeps the file system and the events reached so far. *)
Definition M (A : Type) : Type := local_fs -> outcome A * local_fs * list event.

Definition ret {A} (a : A) : M A := fun fs => (Done a, fs, []).

Definition bind {A B} (m : M A) (f : A -> M B) : M B := fun fs =>
  match m fs with
  | (Done a, fs1, t1) =>
      match f a fs1 with (r, fs2, t2) => (r, fs2, t1 ++ t2) end
  | (Raised e, fs1, t1) => (Raised e, fs1, t1)
  | (NoFuel, fs1, t1) => (NoFuel, fs1, t1)
  end.

Notation "'let*' x ':=' m 'in' k" := (bind m (fun x => k))
  (at level 10, x name, m at level 100, k at level 200, only parsing).
Notation "m >>> k" := (bind m (fun _ => k))
  (at level 63, right associativity, only parsing).

Definition raise {A} (e : error) : M A := fun fs => (Raised e, fs, []).

Definition lift {A} (r : result A) : M A :=
  match r with Ok a => ret a | Err e => raise e end.

Definition emit (e : event) : M unit := fun fs => (Done tt, fs, [e]).

Definition print (msg : string) : M unit := emit (EvPrint msg).

(** [try: m  except FileNotFoundError: handler] *)
Definition try_except_fnf {A} (m : M A) (handler : M A) : M A := fun fs =>
  match m fs with
  | (Raised FileNotFoundError, fs1, t1) =>
      match handler fs1 with (r, fs2, t2) => (r, fs2, t1 ++ t2) end
  | other => other
  end.

(** [try: m  finally: fin]. The final clause runs whatever [m] did; an
    exception of its own replaces the one of [m]. *)
Definition try_finally {A B} (m : M A) (fin : M B) : M (A * B) := fun fs =>
  match m fs with
  | (NoFuel, fs1, t1) => (NoFuel, fs1, t1)
  | (r, fs1, t1) =>
      match fin fs1 with
      | (Done b, fs2, t2) =>
          match r with
          | Done a => (Done (a, b), fs2, t1 ++ t2)
          | Raised e => (Raised e, fs2, t1 ++ t2)
          | NoFuel => (NoFuel, fs2, t1 ++ t2)
          end
      | (Raised e, fs2, t2) => (Raised e, fs2, t1 ++ t2)
      | (NoFuel, fs2, t2) => (NoFuel, fs2, t1 ++ t2)
      end
  end.

Fixpoint for_each {A} (l : list A) (body : A -> M unit) : M unit :=
  match l with
  | [] => ret tt
  | x :: xs => body x >>> for_each xs body
  end.

(** [os.path.isfile(p)] *)
Definition os_path_isfile (p : string) : M bool := fun fs =>
  (Done (bool_decide (is_Some (files fs !! p))), fs, [EvIsfile p]).

(** [os.path.getsize(p)]; in [should_download] it only runs after
    [os.path.isfile(p)] answered true. *)
Definition os_path_getsize (p : string) : M Z := fun fs =>
  match files fs !! p with
  | Some n => (Done n, fs, [EvGetsize p])
  | None => (Raised FileNotFoundError, fs, [EvGetsize p])
  end.

(** [os.makedirs(d, exist_ok=True)]: fails when [d] is a regular file. *)
Definition os_makedirs (d : string) : M unit := fun fs =>
  match files fs !! d with
  | Some _ => (Raised (OtherError "FileExistsError"), fs, [EvMakedirs d])
  | None => (Done tt, {| files := files fs; dirs := {[ d ]} ∪ dirs fs |}, [EvMakedirs d])
  end.

Definition job : Type := (string * string)%type.

Section Mirror.

Variable fs : remote_store.

Variable mirror_dir : string.
Variable products : list string.
Variables start_time end_time : datetime.
Variable sats : list string.
Variable overwrite : bool.
Variable test : bool.
Variable fn_filter : option (string -> bool).

(** [fs.ls(aws_dir)] *)
Definition fs_ls (aws_dir : string) : M (list string) := fun l =>
  match ls fs aws_dir with
  | Ok names => (Done names, l, [EvLs aws_dir])
  | Err e => (Raised e, l, [EvLs aws_dir])
  end.

(** [fs.info(aws_file)["Size"]] *)
Definition fs_info_size (aws_file : string) : M Z := fun l =>
  match info_size fs aws_file with
  | Ok n => (Done n, l, [EvInfo aws_file])
  | Err e => (Raised e, l, [EvInfo aws_file])
  end.

(** [fs.get(aws_file, local_file)]: the local file is (over)written with
    the bytes of the remote object. *)
Definition fs_get (aws_file local_file : string) : M unit := fun l =>
  match get fs aws_file with
  | Ok n =>
      (Done tt, {| files := <[local_file := n]> (files l); dirs := dirs l |},
       [EvGet aws_file local_file])
  | Err e => (Raised e, l, [EvGet aws_file local_file])
  end.

(** [aws_file.split("/")[-1]] *)
Definition basename (path : string) : string :=
  Str.last_field (Str.split "/" path).

(** Lines 44-46: the time stamp held by a file name. *)
Definition file_time (fn : string) : result datetime :=
  let file_parts := Str.split "_" fn in
  match file_parts !! 3%nat with
  | None => Err IndexError
  | Some part =>
      let timestamp := Str.slice 1 (-1) part in
      Strptime.strptime timestamp
  end.

Definition filter_rejects (fn : string) : bool :=
  match fn_filter with
  | Some f => negb (f fn)
  | None => false
  end.

Definition should_download (aws_file local_file : string) : M bool :=
  let fn := basename aws_file in
  if filter_rejects fn then ret false
  else
    let* t := lift (file_time fn) in
    if negb (DT.le start_time t && DT.lt t end_time) then ret false
    else if negb overwrite then
      let* local_exists := os_path_isfile local_file in
      if local_exists then
        let* aws_size := fs_info_size aws_file in
        let* local_size := os_path_getsize local_file in
        ret (negb (aws_size =? local_size))
      else ret true
    else ret true.

(** The body of a delayed [download] task, run by [dask.compute]. *)
Definition download (aws_file local_file : string) : M unit :=
  let fn := basename aws_file in
  print ("Started downloading " +:+ fn) >>>
  (if negb test then fs_get aws_file local_file else ret tt) >>>
  print ("Finished downloading " +:+ fn).

Definition sat_dir (sat : string) : string := "noaa-goes" +:+ sat.

Definition aws_dir_of (product sat : string) (h : datetime) : string :=
  "s3://" +:+ Str.join "/"
    [sat_dir sat; product; DT.strftime_Y h; DT.strftime_j h; DT.strftime_H h].

Definition local_dir_of (product sat : string) (h : datetime) : string :=
  Str.os_path_join mirror_dir
    [sat_dir sat; product; DT.strftime_Y h; DT.strftime_j h; DT.strftime_H h].

Definition aws_file_of (aws_dir path : string) : string :=
  Str.join "/" [aws_dir; basename path].

Definition local_file_of (local_dir path : string) : string :=
  Str.os_path_join local_dir [basename path].

(** Lines 96-104: the loop over the listed paths, building [jobs]. *)
Fixpoint collect_jobs (aws_dir local_dir : string) (paths : list string)
    (jobs : list job) : M (list job) :=
  match paths with
  | [] => ret jobs
  | path :: rest =>
      let fn := basename path in
      let aws_file := aws_file_of aws_dir path in
      let local_file := local_file_of local_dir path in
      let* go := should_download aws_file local_file in
      if go then
        emit (EvTask aws_file local_file) >>>
        collect_jobs aws_dir local_dir rest (jobs ++ [(aws_file, local_file)])
      else
        print ("File " +:+ fn +:+ " already downloaded, skipping.") >>>
        collect_jobs aws_dir local_dir rest jobs
  end.

(** [dask.compute(jobs, scheduler='processes')]: every task is run; the
    tasks are independent and are run here in list order. *)
Definition compute (jobs : list job) : M unit :=
  for_each jobs (fun j => download (fst j) (snd j)).

(** Lines 81-106: the body of the [try] statement for one hour. *)
Definition bucket_body (product sat : string) (h : datetime) : M unit :=
  let aws_dir := aws_dir_of product sat h in
  let* paths := fs_ls aws_dir in
  let local_dir := local_dir_of product sat h in
  (if negb test then os_makedirs local_dir else ret tt) >>>
  let* jobs := collect_jobs aws_dir local_dir paths [] in
  compute jobs.

(** Lines 80-108: [try] with its [except FileNotFoundError] clause. *)
Definition try_bucket (product sat : string) (h : datetime) : M unit :=
  try_except_fnf (bucket_body product sat h)
    (print ("Unable to find " +:+ aws_dir_of product sat h)).

(** Lines 78-110: [while h <= last_hour], with [h += timedelta(hours=1)]
    in the [finally] clause. *)
Fixpoint hour_loop (fuel : nat) (product sat : string)
    (last_hour h : datetime) : M unit :=
  match fuel with
  | O => fun l => (NoFuel, l, [])
  | S fuel' =>
      if DT.le h last_hour then
        let* r := try_finally (try_bucket product sat h) (lift (DT.add_hours h 1)) in
        hour_loop fuel' product sat last_hour (snd r)
      else ret tt
  end.

Definition first_hour : datetime := DT.hour_floor start_time.
Definition last_hour : datetime := DT.hour_floor end_time.

(** Enough fuel for every hour from [first_hour] to [last_hour] and the
    final test of the loop condition. *)
Definition loop_fuel : nat :=
  S (Z.to_nat (DT.hour_index last_hour - DT.hour_index first_hour + 1)).

Definition mirror_s3 : M unit :=
  for_each products (fun product =>
    for_each sats (fun sat =>
      hour_loop loop_fuel product sat last_hour first_hour)).

End Mirror.

(** The empty local file system. *)
Definition empty_fs : local_fs := {| files := ∅; dirs := ∅ |}.

(** ** Properties of computations *)

Definition outcome_of {A} (x : outcome A * local_fs * list event) : outcome A := fst (fst x).
Definition fs_of {A} (x : outcome A * local_fs * list event) : local_fs := snd (fst x).
Definition trace_of {A} (x : outcome A * local_fs * list event) : list event := snd x.

(** Every event a computation logs satisfies [P], from any file system. *)
Definition logs_only {A} (P : event -> Prop) (m : M A) : Prop :=
  forall l, Forall P (trace_of (m l)).

(** A computation that leaves the local file system as it found it. *)
Definition keeps_fs {A} (m : M A) : Prop :=
  forall l, fs_of (m l) = l.

(** A computation that never runs out of fuel. *)
Definition has_fuel {A} (m : M A) : Prop :=
  forall l, outcome_of (m l) <> NoFuel.

Ltac run_step l m :=
  let r := fresh "r" in let l1 := fresh "l" in let t1 := fresh "t" in
  let E := fresh "E" in
  destruct (m l) as [[r l1] t1] eqn:E.

(** [should_download] only reads: it logs no task, transfer, directory
    creation, listing or message. *)
Definition read_event (e : event) : Prop :=
  match e with
  | EvIsfile _ | EvInfo _ | EvGetsize _ => True
  | _ => False
  end.

(** ** Predicates on the events of a run *)

(** The time stamp of the file name [fn] parses and lies in
    [[start_time, end_time)]. *)
Definition in_window (start_time end_time : datetime) (fn : string) : Prop :=
  exists t, file_time fn = Ok t /\
            DT.le start_time t = true /\ DT.lt t end_time = true.

(** Every task created ([EvTask]) or run ([EvGet]) is for a remote file whose
    name satisfies [ok]. *)
Definition task_event_ok (ok : string -> Prop) (e : event) : Prop :=
  match e with
  | EvTask aws_file _ | EvGet aws_file _ => ok (basename aws_file)
  | _ => True
  end.

(** ** A small world for examples

    The scenario of the documentation: mirror root [/data], product [P1],
    satellite [16], window 2020-01-01 05:30:00 to 06:15:00. *)
Module Scenario.

Definition at_2020_001 (h m : Z) : datetime :=
  {| ordinal := 737425; hour := h; minute := m; second := 0; microsecond := 0 |}.

Definition window_start : datetime := at_2020_001 5 30.
Definition window_end : datetime := at_2020_001 6 15.

Definition in_window_name : string := "OR_P1_G16_s20200010530000_e20200010539000_c20200010539100.nc".
Definition late_name : string := "OR_P1_G16_s20200010700000_e20200010709000_c20200010709100.nc".

(** Hour 05 holds the two objects; every other bucket is missing. Every
    object has 7 bytes. *)
Definition store : remote_store := {|
  ls := fun d =>
    if String.eqb d "s3://noaa-goes16/P1/2020/001/05"
    then Ok ["noaa-goes16/P1/2020/001/05/" +:+ in_window_name;
             "noaa-goes16/P1/2020/001/05/" +:+ late_name]
    else Err FileNotFoundError;
  info_size := fun _ => Ok 7;
  get := fun _ => Ok 7
|}.

End Scenario.

(** An event that is not a write to the local file system. *)
Definition not_a_write (e : event) : Prop :=
  match e with
  | EvMakedirs _ | EvGet _ _ => False
  | _ => True
  end.

(** The remote directories a run lists, in order. *)
Fixpoint ls_events (t : list event) : list string :=
  match t with
  | [] => []
  | EvLs d :: t' => d :: ls_events t'
  | _ :: t' => ls_events t'
  end.

Definition not_ls (e : event) : Prop :=
  match e with EvLs _ => False | _ => True end.

(** ** The bucket sequence, as the documentation describes it *)

(** The hour-aligned datetime that is [i] hours after 0001-01-01 00:00,
    counting days from ordinal 0. *)
Definition hour_bucket (i : Z) : datetime :=
  {| ordinal := i / 24; hour := i mod 24;
     minute := 0; second := 0; microsecond := 0 |}.

(** One bucket per hour, from the hour containing [start_time] through the
    hour containing [end_time], in increasing order. *)
Definition expected_buckets (start_time end_time : datetime) : list datetime :=
  map hour_bucket
    (seqZ (DT.hour_index start_time)
          (DT.hour_index end_time - DT.hour_index start_time + 1)).

(** The remote directories of the buckets of every (product, satellite)
    pair, in the order of the two outer loops. *)
Definition expected_dirs (products sats : list string)
    (start_time end_time : datetime) : list string :=
  flat_map (fun product =>
    flat_map (fun sat =>
      map (aws_dir_of product sat) (expected_buckets start_time end_time))
      sats)
    products.

(** An hour-aligned datetime. *)
Definition aligned (h : datetime) : Prop :=
  0 <= hour h < 24 /\ minute h = 0 /\ second h = 0 /\ microsecond h = 0.

(** What [try ... except FileNotFoundError ... finally] makes of the body for
    hour [h]: the next hour when the loop goes on, the exception when it
    does not, with the state and the events so far. *)
Definition after_bucket (fs : remote_store) (mirror_dir : string)
    (start_time end_time : datetime) (overwrite test : bool)
    (fn_filter : option (string -> bool))
    (product sat : string) (h : datetime) (l : local_fs)
  : outcome datetime * local_fs * list event :=
  match bucket_body fs mirror_dir start_time end_time overwrite test fn_filter
          product sat h l with
  | (Raised FileNotFoundError, l1, t1) =>
      let t := t1 ++ [EvPrint ("Unable to find " +:+ aws_dir_of product sat h)] in
      match DT.add_hours h 1 with
      | Ok h' => (Done h', l1, t)
      | Err e => (Raised e, l1, t)
      end
  | (Done _, l1, t1) =>
      match DT.add_hours h 1 with
      | Ok h' => (Done h', l1, t1)
      | Err e => (Raised e, l1, t1)
      end
  | (Raised e, l1, t1) =>
      match DT.add_hours h 1 with
      | Ok _ => (Raised e, l1, t1)
      | Err e' => (Raised e', l1, t1)
      end
  | (NoFuel, l1, t1) => (NoFuel, l1, t1)
  end.

(** A computation that never runs out of fuel and lists exactly the
    directories [D], however it ends. *)
Definition lists_exactly {A} (m : M A) (D : list string) : Prop :=
  forall l, outcome_of (m l) <> NoFuel /\ ls_events (trace_of (m l)) = D.

(** A computation that never runs out of fuel and lists the directories [D]
    in order: all of them when it returns, the first few when it raises. *)
Definition visits {A} (m : M A) (D : list string) : Prop :=
  forall l,
    outcome_of (m l) <> NoFuel /\
    ls_events (trace_of (m l)) `prefix_of` D /\
    (forall a, outcome_of (m l) = Done a -> ls_events (trace_of (m l)) = D).

(** A store where hour 05 lists one in-window object that has vanished by
    the time it is fetched, and hour 06 lists nothing. *)
Module Vanishing.

Definition store : remote_store := {|
  ls := fun d =>
    if String.eqb d "s3://noaa-goes16/P1/2020/001/05"
    then Ok ["noaa-goes16/P1/2020/001/05/" +:+ Scenario.in_window_name]
    else Ok [];
  info_size := fun _ => Ok 7;
  get := fun _ => Err FileNotFoundError
|}.

Definition aws_file : string :=
  "s3://noaa-goes16/P1/2020/001/05/" +:+ Scenario.in_window_name.
Definition local_file : string :=
  "/data/noaa-goes16/P1/2020/001/05/" +:+ Scenario.in_window_name.

End Vanishing.

(** ** Relating the file system before and after a computation *)

(** [R l t l'] relates the local file system [l] before a computation, the
    events [t] it logs and the file system [l'] it leaves. *)
Definition fs_relation : Type := local_fs -> list event -> local_fs -> Prop.

Definition respects {A} (R : fs_relation) (m : M A) : Prop :=
  forall l, R l (trace_of (m l)) (fs_of (m l)).

(** A relation that holds of computations that change nothing and composes
    along sequencing. *)
Record compositional (R : fs_relation) : Prop := {
  comp_refl : forall l t, R l t l;
  comp_trans : forall l t1 l1 t2 l2, R l t1 l1 -> R l1 t2 l2 -> R l (t1 ++ t2) l2
}.

(** No local file or directory disappears. *)
Definition nothing_removed : fs_relation := fun l _ l' =>
  (forall p, is_Some (files l !! p) -> is_Some (files l' !! p)) /\
  dirs l ⊆ dirs l'.

(** Only the local paths of logged transfers may have changed, and only the
    directories of logged [makedirs] calls may have appeared. *)
Definition only_logged_writes : fs_relation := fun l t l' =>
  (forall p, (forall aws_file, ~ In (EvGet aws_file p) t) ->
             files l' !! p = files l !! p) /\
  (forall d, ~ In (EvMakedirs d) t -> (d ∈ dirs l' <-> d ∈ dirs l)).

Ltac fs_step_simpl :=
  cbv [respects nothing_removed only_logged_writes trace_of fs_of fst snd files dirs].

(** The tasks a computation creates and the transfers it starts, in order. *)
Fixpoint task_events (t : list event) : list job :=
  match t with
  | [] => []
  | EvTask a b :: t' => (a, b) :: task_events t'
  | _ :: t' => task_events t'
  end.

Fixpoint get_events (t : list event) : list job :=
  match t with
  | [] => []
  | EvGet a b :: t' => (a, b) :: get_events t'
  | _ :: t' => get_events t'
  end.

Ltac split_leb :=
  repeat match goal with
  | |- context [?a <=? ?b] =>
      destruct (Z.leb_spec a b); try lia; cbn [andb orb negb]
  end.

(** The time stamp [YYYYDDDHHMMSS] of a year, a day of the year and a time
    of day: thirteen decimal digits. *)
Definition stamp (Y J H M S : Z) : string :=
  Str.zfill 4 Y +:+ Str.zfill 3 J +:+ Str.zfill 2 H +:+ Str.zfill 2 M +:+ Str.zfill 2 S.

(** ** Path segments *)

(** A non-empty path segment that holds no separator. *)
Definition plain (s : string) : bool :=
  negb (Str.is_empty s) && negb (Str.contains "/" s).

(** A directory as a prefix: [os.path.join] adds a separator unless the
    directory is empty or ends with one. *)
Definition root_prefix (dir : string) : string :=
  if Str.is_empty dir || Str.endswith_sep dir then dir else dir +:+ "/".

(** The remote key of a listed path in the bucket of [h], without the
    [s3://] scheme. *)
Definition object_key (product sat : string) (h : datetime) (path : string) : string :=
  Str.join "/" [sat_dir sat; product; DT.strftime_Y h; DT.strftime_j h;
                DT.strftime_H h; basename path].

(** ** [organize_files] *)

Module StrMore.

(** [s.endswith(suffix)] *)
Definition endswith (s suffix : string) : bool :=
  let n := String.length s in
  let k := String.length suffix in
  (k <=? n)%nat && String.eqb (String.substring (n - k) k s) suffix.

(** [s[i:]] *)
Definition slice_from (i : Z) (s : string) : string :=
  Str.slice i (Z.of_nat (String.length s)) s.

(** [l[i]] for a non-negative index. *)
Definition index (l : list string) (i : nat) : result string :=
  match l !! i with
  | Some x => Ok x
  | None => Err IndexError
  end.

End StrMore.

(** [os.rename(src, dst)] for a regular file: the file moves, replacing
    whatever file was at the destination; a missing source raises
    [FileNotFoundError] and a destination that is a directory raises
    [IsADirectoryError]. The move shows in the file system, not in the
    events. *)
Definition os_rename (src dst : string) : M unit := fun l =>
  match files l !! src with
  | Some n =>
      if bool_decide (dst ∈ dirs l)
      then (Raised (OtherError "IsADirectoryError"), l, [])
      else (Done tt, {| files := <[dst := n]> (delete src (files l)); dirs := dirs l |}, [])
  | None => (Raised FileNotFoundError, l, [])
  end.

(** How the loop over the files of a directory ends: it goes on with the
    next directory, or the function has returned. *)
Inductive flow : Type := Continue | Return.

(** Lines 129-142: where a file name goes, as (target_dir, to_path). *)
Definition target_of (to_dir fn : string) : result (string * string) :=
  let file_parts := Str.split "_" fn in
  match StrMore.index file_parts 3 with
  | Err e => Err e
  | Ok timestamp =>
      let year := Str.slice 1 5 timestamp in
      let day_of_year := Str.slice 5 8 timestamp in
      let hour := Str.slice 8 10 timestamp in
      match StrMore.index file_parts 2 with
      | Err e => Err e
      | Ok part2 =>
          let sat := StrMore.slice_from 1 part2 in
          match StrMore.index file_parts 1 with
          | Err e => Err e
          | Ok part1 =>
              let product := Str.join "-" (removelast (Str.split "-" part1)) in
              let target_dir :=
                Str.os_path_join to_dir
                  ["noaa-goes" +:+ sat; product; year; day_of_year; hour] in
              let to_path := Str.os_path_join target_dir [fn] in
              Ok (target_dir, to_path)
          end
      end
  end.

(** Lines 123-150: the loop over the files of one directory. *)
Fixpoint organize_dir (to_dir : string) (test : bool) (root : string)
    (names : list string) : M flow :=
  match names with
  | [] => ret Continue
  | fn :: rest =>
      if negb (StrMore.endswith fn ".nc") then organize_dir to_dir test root rest
      else
        let from_path := Str.os_path_join root [fn] in
        let* target := lift (target_of to_dir fn) in
        let target_dir := fst target in
        let to_path := snd target in
        if test then
          print ("From: " +:+ from_path) >>>
          print ("To: " +:+ to_path) >>>
          ret Return
        else
          os_makedirs target_dir >>>
          os_rename from_path to_path >>>
          organize_dir to_dir test root rest
  end.

(** Lines 122-150: the loop over what [os.walk(from_dir)] yields, as
    (root, files) pairs. *)
Fixpoint organize_walk (to_dir : string) (test : bool)
    (walk : list (string * list string)) : M unit :=
  match walk with
  | [] => ret tt
  | (root, names) :: more =>
      let* f := organize_dir to_dir test root names in
      match f with
      | Return => ret tt
      | Continue => organize_walk to_dir test more
      end
  end.

(** [organize_files(from_dir, to_dir, test)]; [os_walk from_dir] is what
    [os.walk(from_dir)] yields during the call. *)
Definition organize_files (os_walk : string -> list (string * list string))
    (from_dir to_dir : string) (test : bool) : M unit :=
  organize_walk to_dir test (os_walk from_dir).

(** The files [organize_files] considers: the names ending in [.nc], with
    their directory, in walk order. *)
Definition candidates (walk : list (string * list string)) : list (string * string) :=
  flat_map (fun entry =>
              map (fun fn => (fst entry, fn))
                  (List.filter (fun fn => StrMore.endswith fn ".nc") (snd entry)))
           walk.

(** ** Synchronised objects *)

(** The store reports for an object the size a transfer of it delivers. *)
Definition consistent_store (fs : remote_store) : Prop :=
  forall k n, get fs k = Ok n -> info_size fs k = Ok n.

(** No object vanishes between its listing and its lookup or transfer. *)
Definition never_vanishes (fs : remote_store) : Prop :=
  forall k, info_size fs k <> Err FileNotFoundError /\ get fs k <> Err FileNotFoundError.

(** The local file exists and has the size the store reports. *)
Definition in_sync (fs : remote_store) (l : local_fs) (aws_file local_file : string) : Prop :=
  exists n, files l !! local_file = Some n /\ info_size fs aws_file = Ok n.

(** A remote path and the local path that mirrors it under [mirror_dir]. *)
Definition mirrored (mirror_dir aws_file local_file : string) : Prop :=
  exists key, aws_file = "s3://" +:+ key /\ local_file = root_prefix mirror_dir +:+ key.

(** Every mirrored object in sync in [l] is in sync in [l']. *)
Definition sync_le (fs : remote_store) (mirror_dir : string) (l l' : local_fs) : Prop :=
  forall aws_file local_file,
    mirrored mirror_dir aws_file local_file ->
    in_sync fs l aws_file local_file -> in_sync fs l' aws_file local_file.

(** A file name that [should_download] lets through to the size test. *)
Definition accepted (start_time end_time : datetime)
    (fn_filter : option (string -> bool)) (fn : string) : Prop :=
  filter_rejects fn_filter fn = false /\ in_window start_time end_time fn.

(** A computation that never puts a mirrored object out of sync and that,
    once it has returned, creates no task and starts no transfer when it is
    run again from a state where nothing has gone out of sync since. *)
Definition settles (fs : remote_store) (mirror_dir : string) (c : M unit) : Prop :=
  (forall l, sync_le fs mirror_dir l (fs_of (c l))) /\
  (forall l, outcome_of (c l) = Done tt ->
     forall l2, sync_le fs mirror_dir (fs_of (c l)) l2 ->
       task_events (trace_of (c l2)) = [] /\ get_events (trace_of (c l2)) = []).

(** The moves of a real run of [organize_files], one candidate after the
    other: the nested loops without the names they skip. *)
Fixpoint move_all (to_dir : string) (cands : list (string * string)) : M unit :=
  match cands with
  | [] => ret tt
  | c :: rest =>
      let* target := lift (target_of to_dir (snd c)) in
      os_makedirs (fst target) >>>
      os_rename (Str.os_path_join (fst c) [snd c]) (snd target) >>>
      move_all to_dir rest
  end.




(** A flat archive of two data files and a note, to be organised. *)
Module Archive.

Definition first_name : string :=
  "OR_ABI-L1b-RadF-M3C01_G16_s20180010000388_e20180010011155_c20180010011199.nc".

Definition second_name : string :=
  "OR_ABI-L2-CMIPF-M3C02_G17_s20183650100388_e20183650111155_c20183650111199.nc".

Definition os_walk (d : string) : list (string * list string) :=
  [(d, ["README.txt"; first_name; second_name])].

Definition disk : local_fs :=
  {| files := <["/old/README.txt" := 10]>
                (<["/old/" +:+ first_name := 100]>
                   (<["/old/" +:+ second_name := 200]> ∅));
     dirs := {["/old"]} |}.

End Archive.

(** Two directories holding a file of the same name. *)
Module Clash.

Definition os_walk (d : string) : list (string * list string) :=
  [(d +:+ "/a", [Archive.first_name]); (d +:+ "/b", ["notes.txt"; Archive.first_name])].

Definition disk : local_fs :=
  {| files := <["/old/a/" +:+ Archive.first_name := 100]>
                (<["/old/b/" +:+ Archive.first_name := 200]>
                   (<["/old/b/notes.txt" := 10]> ∅));
     dirs := {["/old"; "/old/a"; "/old/b"]} |}.

Definition target_dir : string := "/new/noaa-goes16/ABI-L1b-RadF/2018/001/00".

End Clash.

(** * Part II: properties of the program *)

(** ** Sanity checks of the library model *)

Example strptime_new_year :
  Strptime.strptime "2020001053000"
  = Ok {| ordinal := 737425; hour := 5; minute := 30; second := 0; microsecond := 0 |}.
Proof. reflexivity. Qed.

Example year_of_new_year : DT.ord2year 737425 = 2020 /\ DT.ord2year 737424 = 2019.
Proof. split; reflexivity. Qed.

(** ** Reasoning about computations *)

Section Combinators.

Context {A B : Type}.
Variable P : event -> Prop.

Lemma logs_only_ret (a : A) : logs_only P (ret a).
Proof. intros l. constructor. Qed.

Lemma logs_only_raise (e : error) : logs_only P (@raise A e).
Proof. intros l. constructor. Qed.

Lemma logs_only_lift (r : result A) : logs_only P (lift r).
Proof. destruct r; [apply logs_only_ret | apply logs_only_raise]. Qed.

Lemma logs_only_emit (e : event) : P e -> logs_only P (emit e).
Proof. intros He l. cbn. repeat constructor; exact He. Qed.

Lemma logs_only_bind (m : M A) (f : A -> M B) :
  logs_only P m -> (forall a, logs_only P (f a)) -> logs_only P (bind m f).
Proof.
  intros Hm Hf l. unfold bind. specialize (Hm l).
  run_step l m. cbn in Hm. destruct r; cbn; try exact Hm.
  specialize (Hf a l0). run_step l0 (f a). cbn in *.
  apply Forall_app; split; assumption.
Qed.

Lemma logs_only_try_except (m h : M A) :
  logs_only P m -> logs_only P h -> logs_only P (try_except_fnf m h).
Proof.
  intros Hm Hh l. unfold try_except_fnf. specialize (Hm l).
  run_step l m. cbn in Hm. destruct r as [a|e|]; cbn; try exact Hm.
  destruct e; cbn; try exact Hm.
  specialize (Hh l0). run_step l0 h. cbn in *.
  apply Forall_app; split; assumption.
Qed.

Lemma logs_only_try_finally (m : M A) (fin : M B) :
  logs_only P m -> logs_only P fin -> logs_only P (try_finally m fin).
Proof.
  intros Hm Hf l. unfold try_finally. specialize (Hm l).
  run_step l m. cbn in Hm. specialize (Hf l0).
  destruct r as [a|e|]; cbn; try exact Hm;
    run_step l0 fin; cbn in *; destruct r; cbn;
    apply Forall_app; split; assumption.
Qed.

Lemma keeps_fs_ret (a : A) : keeps_fs (ret a).
Proof. intros l. reflexivity. Qed.

Lemma keeps_fs_raise (e : error) : keeps_fs (@raise A e).
Proof. intros l. reflexivity. Qed.

Lemma keeps_fs_lift (r : result A) : keeps_fs (lift r).
Proof. destruct r; intros l; reflexivity. Qed.

Lemma keeps_fs_bind (m : M A) (f : A -> M B) :
  keeps_fs m -> (forall a, keeps_fs (f a)) -> keeps_fs (bind m f).
Proof.
  intros Hm Hf l. unfold bind. specialize (Hm l).
  run_step l m. cbn in Hm. subst l0. destruct r; cbn; try reflexivity.
  specialize (Hf a l). run_step l (f a). cbn in *. assumption.
Qed.

Lemma keeps_fs_try_except (m h : M A) :
  keeps_fs m -> keeps_fs h -> keeps_fs (try_except_fnf m h).
Proof.
  intros Hm Hh l. unfold try_except_fnf. specialize (Hm l).
  run_step l m. cbn in Hm. subst l0. destruct r as [a|e|]; cbn; try reflexivity.
  destruct e; cbn; try reflexivity.
  specialize (Hh l). run_step l h. cbn in *. assumption.
Qed.

Lemma keeps_fs_try_finally (m : M A) (fin : M B) :
  keeps_fs m -> keeps_fs fin -> keeps_fs (try_finally m fin).
Proof.
  intros Hm Hf l. unfold try_finally. specialize (Hm l).
  run_step l m. cbn in Hm. subst l0. specialize (Hf l).
  destruct r as [a|e|]; cbn; try reflexivity;
    run_step l fin; cbn in *; destruct r; cbn; assumption.
Qed.

End Combinators.

Lemma keeps_fs_emit (e : event) : keeps_fs (emit e).
Proof. intros l. reflexivity. Qed.

Lemma logs_only_for_each {A} (P : event -> Prop) (xs : list A) (body : A -> M unit) :
  (forall x, In x xs -> logs_only P (body x)) -> logs_only P (for_each xs body).
Proof.
  induction xs as [|x xs IH]; intros H; cbn.
  - apply logs_only_ret.
  - apply logs_only_bind.
    + apply H. now left.
    + intros _. apply IH. intros y Hy. apply H. now right.
Qed.

Lemma keeps_fs_for_each {A} (xs : list A) (body : A -> M unit) :
  (forall x, In x xs -> keeps_fs (body x)) -> keeps_fs (for_each xs body).
Proof.
  induction xs as [|x xs IH]; intros H; cbn.
  - apply keeps_fs_ret.
  - apply keeps_fs_bind.
    + apply H. now left.
    + intros _. apply IH. intros y Hy. apply H. now right.
Qed.

Lemma logs_only_weaken {A} (P Q : event -> Prop) (m : M A) :
  (forall e, P e -> Q e) -> logs_only P m -> logs_only Q m.
Proof. intros HPQ Hm l. eapply Forall_impl; [apply Hm | apply HPQ]. Qed.

(** * The download decision *)

Section Decision.

Variable fs : remote_store.
Variables start_time end_time : datetime.
Variable overwrite : bool.
Variable fn_filter : option (string -> bool).

Local Abbreviation should_download' :=
  (should_download fs start_time end_time overwrite fn_filter).

(** The decision of [should_download], branch by branch, with the events
    each branch logs. *)
Lemma should_download_cases (aws_file local_file : string) (l : local_fs) :
  should_download' aws_file local_file l =
  let fn := basename aws_file in
  if filter_rejects fn_filter fn then (Done false, l, [])
  else
    match file_time fn with
    | Err e => (Raised e, l, [])
    | Ok t =>
        if negb (DT.le start_time t && DT.lt t end_time) then (Done false, l, [])
        else if overwrite then (Done true, l, [])
        else
          match files l !! local_file with
          | None => (Done true, l, [EvIsfile local_file])
          | Some local_size =>
              match info_size fs aws_file with
              | Ok aws_size =>
                  (Done (negb (aws_size =? local_size)), l,
                   [EvIsfile local_file; EvInfo aws_file; EvGetsize local_file])
              | Err e => (Raised e, l, [EvIsfile local_file; EvInfo aws_file])
              end
          end
    end.
Proof.
  unfold should_download. cbv zeta.
  destruct (filter_rejects fn_filter (basename aws_file)); [reflexivity|].
  unfold bind at 1.
  destruct (file_time (basename aws_file)) as [t|e]; cbn [lift ret raise]; [|reflexivity].
  destruct (negb (DT.le start_time t && DT.lt t end_time)); [reflexivity|].
  destruct overwrite; [reflexivity|]. cbn [negb].
  unfold bind, os_path_isfile, fs_info_size, os_path_getsize, ret.
  destruct (files l !! local_file) as [n|] eqn:Hl.
  - rewrite bool_decide_true by eauto.
    destruct (info_size fs aws_file) as [s|e]; [|reflexivity].
    rewrite Hl. reflexivity.
  - rewrite bool_decide_false by (intros [x Hx]; discriminate).
    reflexivity.
Qed.

Lemma should_download_keeps_fs aws_file local_file :
  keeps_fs (should_download' aws_file local_file).
Proof.
  intros l. rewrite should_download_cases. cbv zeta.
  repeat (match goal with |- context [match ?x with _ => _ end] => destruct x end;
          try reflexivity).
Qed.

(** Whenever the answer is [True] the file passed the filter and its
    time stamp lies in the window. *)
Lemma should_download_true aws_file local_file l l' t :
  should_download' aws_file local_file l = (Done true, l', t) ->
  filter_rejects fn_filter (basename aws_file) = false /\
  exists ft, file_time (basename aws_file) = Ok ft /\
             DT.le start_time ft = true /\ DT.lt ft end_time = true.
Proof.
  rewrite should_download_cases. cbv zeta.
  destruct (filter_rejects fn_filter (basename aws_file)); [discriminate|].
  destruct (file_time (basename aws_file)) as [ft|e]; [|discriminate].
  destruct (DT.le start_time ft && DT.lt ft end_time) eqn:Hw; cbn [negb];
    [|discriminate].
  intros _. split; [reflexivity|]. exists ft.
  apply andb_true_iff in Hw. tauto.
Qed.

Lemma should_download_reads aws_file local_file :
  logs_only read_event (should_download' aws_file local_file).
Proof.
  intros l. rewrite should_download_cases. cbv zeta.
  repeat (match goal with |- context [match ?x with _ => _ end] => destruct x end;
          try (cbn; repeat constructor)).
Qed.

End Decision.

(** ** Strings *)

Module StrFacts.
Import Str.

Lemma append_nil_r (s : string) : s +:+ "" = s.
Proof. induction s as [|c s IH]; simpl; [reflexivity | now rewrite IH]. Qed.

Lemma append_assoc (a b c : string) : (a +:+ b) +:+ c = a +:+ (b +:+ c).
Proof. induction a as [|x a IH]; simpl; [reflexivity | now rewrite IH]. Qed.

Lemma append_inv_head (a b c : string) : a +:+ b = a +:+ c -> b = c.
Proof. induction a; simpl; intros H; [assumption|]. injection H. auto. Qed.

Lemma length_append (a b : string) :
  String.length (a +:+ b) = (String.length a + String.length b)%nat.
Proof. induction a as [|x a IH]; simpl; [reflexivity | now rewrite IH]. Qed.

Lemma contains_append c (a b : string) :
  contains c (a +:+ b) = contains c a || contains c b.
Proof.
  induction a as [|d a IH]; cbn; [reflexivity|].
  rewrite IH. apply orb_assoc.
Qed.

Lemma split_not_nil sep s : split sep s <> [].
Proof.
  destruct s as [|c s]; cbn; [discriminate|].
  destruct (Ascii.eqb c sep); [discriminate|].
  destruct (split sep s); discriminate.
Qed.

(** Splitting a string that has no separator gives the string itself. *)
Lemma split_no_sep sep s : contains sep s = false -> split sep s = [s].
Proof.
  induction s as [|c s IH]; cbn; [reflexivity|].
  intros H. apply orb_false_iff in H as [Hc Hs].
  rewrite Hc, (IH Hs). reflexivity.
Qed.

(** Splitting distributes over a separator. *)
Lemma split_append_sep sep (a b : string) :
  split sep (a +:+ String sep b) = split sep a ++ split sep b.
Proof.
  induction a as [|c a IH]; cbn.
  - rewrite Ascii.eqb_refl. reflexivity.
  - destruct (Ascii.eqb c sep); [rewrite IH; reflexivity|].
    rewrite IH. destruct (split sep a) eqn:E; [|reflexivity].
    now apply split_not_nil in E.
Qed.

(** No field of a split holds the separator. *)
Lemma split_fields_no_sep sep s : Forall (fun f => contains sep f = false) (split sep s).
Proof.
  induction s as [|c s IH]; cbn; [repeat constructor|].
  destruct (Ascii.eqb c sep) eqn:Hc; [constructor; [reflexivity|exact IH]|].
  destruct (split sep s) as [|w ws]; [repeat constructor; cbn; now rewrite Hc|].
  inversion IH; subst. constructor; [cbn; now rewrite Hc|assumption].
Qed.

Lemma last_field_app (l1 l2 : list string) :
  l2 <> [] -> last_field (l1 ++ l2) = last_field l2.
Proof.
  unfold last_field. intros H. induction l1 as [|x l1 IH]; [reflexivity|].
  cbn [app]. destruct (l1 ++ l2) eqn:E.
  - apply app_eq_nil in E as [_ E]. contradiction.
  - rewrite <- IH. reflexivity.
Qed.

Lemma last_field_In (l : list string) : l <> [] -> In (last_field l) l.
Proof.
  unfold last_field. induction l as [|x l IH]; [congruence|]. intros _.
  destruct l as [|y l]; [now left|]. right. apply IH. discriminate.
Qed.

(** Joining fields that hold no separator and splitting again gives the
    fields back. *)
Lemma split_join sep (l : list string) :
  l <> [] -> Forall (fun f => contains sep f = false) l ->
  split sep (join (String sep "") l) = l.
Proof.
  induction l as [|x l IH]; [congruence|]. intros _ H.
  inversion H as [|? ? Hx Hl]; subst.
  destruct l as [|y l]; [cbn; now apply split_no_sep|].
  change (join (String sep "") (x :: y :: l))
    with (x +:+ String sep "" +:+ join (String sep "") (y :: l)).
  change (String sep "" +:+ join (String sep "") (y :: l))
    with (String sep (join (String sep "") (y :: l))).
  rewrite split_append_sep, (split_no_sep _ _ Hx), IH by (assumption || discriminate).
  reflexivity.
Qed.

End StrFacts.

(** ** File names *)

Lemma basename_no_slash (path : string) : Str.contains "/" (basename path) = false.
Proof.
  unfold basename.
  pose proof (StrFacts.split_fields_no_sep "/" path) as H.
  rewrite Forall_forall in H. apply H.
  apply list_elem_of_In, StrFacts.last_field_In, StrFacts.split_not_nil.
Qed.

Lemma basename_of_name (fn : string) :
  Str.contains "/" fn = false -> basename fn = fn.
Proof. intros H. unfold basename. now rewrite StrFacts.split_no_sep. Qed.

Lemma aws_file_of_eq (aws_dir path : string) :
  aws_file_of aws_dir path = aws_dir +:+ String "/" (basename path).
Proof. reflexivity. Qed.

(** The file name of the remote path built for a listed path is the file
    name of the listed path. *)
Lemma basename_aws_file_of (aws_dir path : string) :
  basename (aws_file_of aws_dir path) = basename path.
Proof.
  rewrite aws_file_of_eq. unfold basename at 1.
  rewrite StrFacts.split_append_sep, StrFacts.last_field_app
    by apply StrFacts.split_not_nil.
  apply basename_of_name, basename_no_slash.
Qed.

(** ** Running a computation step by step *)

Lemma bind_run {A B} (m : M A) (f : A -> M B) (l : local_fs) :
  bind m f l =
  match m l with
  | (Done a, l1, t1) =>
      (outcome_of (f a l1), fs_of (f a l1), t1 ++ trace_of (f a l1))
  | (Raised e, l1, t1) => (Raised e, l1, t1)
  | (NoFuel, l1, t1) => (NoFuel, l1, t1)
  end.
Proof.
  unfold bind. destruct (m l) as [[[a|e|] l1] t1]; [|reflexivity..].
  destruct (f a l1) as [[r l2] t2]. reflexivity.
Qed.

Lemma collect_jobs_cons fs start_time end_time overwrite fn_filter
    aws_dir local_dir path rest jobs :
  collect_jobs fs start_time end_time overwrite fn_filter aws_dir local_dir
    (path :: rest) jobs =
  bind (should_download fs start_time end_time overwrite fn_filter
          (aws_file_of aws_dir path) (local_file_of local_dir path))
    (fun go : bool =>
       if go then
         bind (emit (EvTask (aws_file_of aws_dir path) (local_file_of local_dir path)))
           (fun _ => collect_jobs fs start_time end_time overwrite fn_filter
                       aws_dir local_dir rest
                       (jobs ++ [(aws_file_of aws_dir path,
                                  local_file_of local_dir path)]))
       else
         bind (print ("File " +:+ basename path +:+ " already downloaded, skipping."))
           (fun _ => collect_jobs fs start_time end_time overwrite fn_filter
                       aws_dir local_dir rest jobs)).
Proof. reflexivity. Qed.

(** ** Which tasks a run creates *)

Lemma logs_only_bind_post {A B} (P : event -> Prop) (Q : A -> Prop)
    (m : M A) (f : A -> M B) :
  logs_only P m ->
  (forall l a, outcome_of (m l) = Done a -> Q a) ->
  (forall a, Q a -> logs_only P (f a)) ->
  logs_only P (bind m f).
Proof.
  intros Hm HQ Hf l. unfold bind. specialize (Hm l). specialize (HQ l).
  run_step l m. cbn in Hm, HQ. destruct r; cbn; try exact Hm.
  specialize (Hf a (HQ a eq_refl) l0). run_step l0 (f a). cbn in *.
  apply Forall_app; split; assumption.
Qed.

Section Tasks.

Variable fs : remote_store.
Variable mirror_dir : string.
Variable products : list string.
Variables start_time end_time : datetime.
Variable sats : list string.
Variable overwrite : bool.
Variable test : bool.
Variable fn_filter : option (string -> bool).

(** A property of file names that holds whenever [should_download]
    answers [True]. *)
Variable ok : string -> Prop.
Hypothesis ok_accepted :
  forall aws_file local_file l l' t,
    should_download fs start_time end_time overwrite fn_filter aws_file local_file l
      = (Done true, l', t) ->
    ok (basename aws_file).

Local Abbreviation jobs_ok := (Forall (fun j : job => ok (basename (fst j)))).

Lemma read_event_task_ok e : read_event e -> task_event_ok ok e.
Proof. destruct e; cbn; tauto. Qed.

Lemma collect_jobs_tasks aws_dir local_dir paths :
  forall jobs l, jobs_ok jobs ->
    Forall (task_event_ok ok)
      (trace_of (collect_jobs fs start_time end_time overwrite fn_filter
                   aws_dir local_dir paths jobs l)) /\
    forall jobs',
      outcome_of (collect_jobs fs start_time end_time overwrite fn_filter
                    aws_dir local_dir paths jobs l) = Done jobs' ->
      jobs_ok jobs'.
Proof.
  induction paths as [|path rest IH]; intros jobs l Hjobs.
  - split; [constructor|]. cbn. intros jobs' [= <-]. exact Hjobs.
  - rewrite collect_jobs_cons, bind_run.
    pose proof (should_download_reads fs start_time end_time overwrite fn_filter
                  (aws_file_of aws_dir path) (local_file_of local_dir path) l) as Hr.
    pose proof (ok_accepted (aws_file_of aws_dir path) (local_file_of local_dir path) l)
      as Hok.
    run_step l (should_download fs start_time end_time overwrite fn_filter
                  (aws_file_of aws_dir path) (local_file_of local_dir path)).
    cbn in Hr. pose proof (Forall_impl _ _ _ Hr read_event_task_ok) as Hr'.
    destruct r as [go| |]; [|split; [exact Hr'|intros ? ?; discriminate]..].
    destruct go.
    + specialize (Hok _ _ eq_refl).
      assert (Hjobs' : jobs_ok (jobs ++ [(aws_file_of aws_dir path,
                                           local_file_of local_dir path)])).
      { apply Forall_app; split; [exact Hjobs|]. repeat constructor. exact Hok. }
      destruct (IH _ l0 Hjobs') as [IHt IHj].
      rewrite bind_run. cbn [emit]. cbn [outcome_of fs_of trace_of fst snd].
      split; [|exact IHj].
      apply Forall_app; split; [exact Hr'|]. constructor; [exact Hok | exact IHt].
    + destruct (IH _ l0 Hjobs) as [IHt IHj].
      rewrite bind_run. cbn [print emit]. cbn [outcome_of fs_of trace_of fst snd].
      split; [|exact IHj].
      apply Forall_app; split; [exact Hr'|]. constructor; [exact I | exact IHt].
Qed.

Lemma download_tasks aws_file local_file :
  ok (basename aws_file) ->
  logs_only (task_event_ok ok) (download fs test aws_file local_file).
Proof.
  intros Hok. unfold download.
  apply logs_only_bind; [apply logs_only_emit; exact I|]. intros _.
  apply logs_only_bind; [|intros _; apply logs_only_emit; exact I].
  destruct test; cbn [negb]; [apply logs_only_ret|].
  intros l. unfold fs_get. destruct (get fs aws_file); cbn; repeat constructor; exact Hok.
Qed.

Lemma compute_tasks jobs :
  jobs_ok jobs -> logs_only (task_event_ok ok) (compute fs test jobs).
Proof.
  intros H. apply logs_only_for_each. intros j Hj.
  apply download_tasks. rewrite Forall_forall in H.
  apply H, list_elem_of_In, Hj.
Qed.

Lemma fs_ls_tasks aws_dir : logs_only (task_event_ok ok) (fs_ls fs aws_dir).
Proof. intros l. unfold fs_ls. destruct (ls fs aws_dir); cbn; repeat constructor. Qed.

Lemma os_makedirs_tasks d : logs_only (task_event_ok ok) (os_makedirs d).
Proof. intros l. unfold os_makedirs. destruct (files l !! d); cbn; repeat constructor. Qed.

Lemma bucket_body_tasks product sat h :
  logs_only (task_event_ok ok)
    (bucket_body fs mirror_dir start_time end_time overwrite test fn_filter product sat h).
Proof.
  unfold bucket_body.
  apply logs_only_bind; [apply fs_ls_tasks|]. intros paths.
  apply logs_only_bind.
  { destruct test; cbn [negb]; [apply logs_only_ret | apply os_makedirs_tasks]. }
  intros _.
  apply logs_only_bind_post with (Q := jobs_ok).
  - intros l. apply collect_jobs_tasks. constructor.
  - intros l jobs. apply collect_jobs_tasks. constructor.
  - apply compute_tasks.
Qed.

Lemma hour_loop_tasks fuel product sat last h :
  logs_only (task_event_ok ok)
    (hour_loop fs mirror_dir start_time end_time overwrite test fn_filter
       fuel product sat last h).
Proof.
  revert h. induction fuel as [|fuel IH]; intros h; cbn [hour_loop].
  - intros l. constructor.
  - destruct (DT.le h last); [|apply logs_only_ret].
    apply logs_only_bind; [|intros r; apply IH].
    apply logs_only_try_finally; [|apply logs_only_lift].
    apply logs_only_try_except; [apply bucket_body_tasks|].
    apply logs_only_emit. exact I.
Qed.

Lemma mirror_s3_tasks :
  logs_only (task_event_ok ok)
    (mirror_s3 fs mirror_dir products start_time end_time sats overwrite test fn_filter).
Proof.
  unfold mirror_s3.
  apply logs_only_for_each. intros product _.
  apply logs_only_for_each. intros sat _.
  apply hour_loop_tasks.
Qed.

End Tasks.

(** ** Comparing datetimes *)

Lemma dt_lt_not_le (a b : datetime) : DT.lt a b = true -> DT.le b a = false.
Proof. unfold DT.lt, DT.le. intros H. apply Z.ltb_lt in H. apply Z.leb_gt. exact H. Qed.

Lemma dt_le_not_lt (a b : datetime) : DT.le a b = true -> DT.lt b a = false.
Proof. unfold DT.lt, DT.le. intros H. apply Z.leb_le in H. apply Z.ltb_ge. exact H. Qed.

(** * The claims about the download decision *)

(** C1 — window correctness. An object whose file time parses to a time
    strictly before [start_time], or at or after [end_time], is refused by
    [should_download] (the answer is [False] and nothing is looked up), and
    no run of [mirror_s3] creates a download task for it, whichever bucket
    lists it. *)
Theorem window_correctness fs mirror_dir products start_time end_time sats
    overwrite test fn_filter aws_file local_file l t :
  file_time (basename aws_file) = Ok t ->
  DT.lt t start_time = true \/ DT.le end_time t = true ->
  should_download fs start_time end_time overwrite fn_filter aws_file local_file l
    = (Done false, l, []) /\
  forall l0 local,
    ~ In (EvTask aws_file local)
        (trace_of (mirror_s3 fs mirror_dir products start_time end_time sats
                     overwrite test fn_filter l0)).
Proof.
  intros Ht Hout.
  assert (Hw : DT.le start_time t && DT.lt t end_time = false).
  { destruct Hout as [H|H].
    - now rewrite (dt_lt_not_le _ _ H).
    - rewrite (dt_le_not_lt _ _ H). apply andb_false_r. }
  split.
  - rewrite should_download_cases. cbv zeta.
    destruct (filter_rejects fn_filter (basename aws_file)); [reflexivity|].
    rewrite Ht, Hw. reflexivity.
  - intros l0 local Hin.
    pose proof (mirror_s3_tasks fs mirror_dir products start_time end_time sats
                  overwrite test fn_filter (in_window start_time end_time)) as Hall.
    specialize (Hall ltac:(intros ? ? ? ? ? H; eapply should_download_true, H) l0).
    rewrite Forall_forall in Hall.
    apply list_elem_of_In, Hall in Hin. cbn in Hin.
    destruct Hin as (t' & Ht' & Hle & Hlt).
    rewrite Ht in Ht'. injection Ht' as <-.
    rewrite Hle, Hlt in Hw. discriminate.
Qed.

Lemma window_correctness_witness :
  should_download Scenario.store Scenario.window_start Scenario.window_end false None
    ("s3://noaa-goes16/P1/2020/001/06/" +:+ Scenario.late_name)
    ("/data/noaa-goes16/P1/2020/001/06/" +:+ Scenario.late_name) empty_fs
    = (Done false, empty_fs, []) /\
  forall l0 local,
    ~ In (EvTask ("s3://noaa-goes16/P1/2020/001/06/" +:+ Scenario.late_name) local)
        (trace_of (mirror_s3 Scenario.store "/data" ["P1"] Scenario.window_start
                     Scenario.window_end ["16"] false false None l0)).
Proof.
  apply (window_correctness Scenario.store "/data" ["P1"] Scenario.window_start
           Scenario.window_end ["16"] false false None _ _ empty_fs
           (Scenario.at_2020_001 7 0)).
  - reflexivity.
  - right. reflexivity.
Defined.

(** C5 — predicate short-circuit. When the supplied filter refuses the file
    name, [should_download] answers [False] at once: the time stamp is not
    parsed (so a malformed name raises nothing), nothing is looked up
    locally or remotely, and no run creates a task for the object. *)
Theorem predicate_short_circuit fs mirror_dir products start_time end_time sats
    overwrite test (keep : string -> bool) aws_file local_file l :
  keep (basename aws_file) = false ->
  should_download fs start_time end_time overwrite (Some keep) aws_file local_file l
    = (Done false, l, []) /\
  forall l0 local,
    ~ In (EvTask aws_file local)
        (trace_of (mirror_s3 fs mirror_dir products start_time end_time sats
                     overwrite test (Some keep) l0)).
Proof.
  intros Hk. split.
  - rewrite should_download_cases. cbv zeta. cbn [filter_rejects].
    rewrite Hk. reflexivity.
  - intros l0 local Hin.
    pose proof (mirror_s3_tasks fs mirror_dir products start_time end_time sats
                  overwrite test (Some keep)
                  (fun fn => filter_rejects (Some keep) fn = false)) as Hall.
    specialize (Hall ltac:(intros ? ? ? ? ? H; eapply should_download_true, H) l0).
    rewrite Forall_forall in Hall.
    apply list_elem_of_In, Hall in Hin. cbn in Hin.
    rewrite Hk in Hin. discriminate.
Qed.

Lemma predicate_short_circuit_witness :
  should_download Scenario.store Scenario.window_start Scenario.window_end false
    (Some (fun _ => false)) "s3://noaa-goes16/P1/2020/001/05/not-a-goes-name" "x" empty_fs
    = (Done false, empty_fs, []) /\
  forall l0 local,
    ~ In (EvTask "s3://noaa-goes16/P1/2020/001/05/not-a-goes-name" local)
        (trace_of (mirror_s3 Scenario.store "/data" ["P1"] Scenario.window_start
                     Scenario.window_end ["16"] false false (Some (fun _ => false)) l0)).
Proof.
  apply (predicate_short_circuit Scenario.store "/data" ["P1"] Scenario.window_start
           Scenario.window_end ["16"] false false (fun _ => false)).
  reflexivity.
Defined.

(** C10 — with [overwrite] set, the decision ignores sizes and local state.
    Two calls for the same remote file that differ in the remote store, in
    the local file system and in the local path give the same answer, and
    neither logs a local existence check, a local size read or a remote size
    query. *)
Theorem overwrite_decision_independent fs fs' start_time end_time fn_filter
    aws_file local_file local_file' l l' :
  exists r : outcome bool,
    should_download fs start_time end_time true fn_filter aws_file local_file l
      = (r, l, []) /\
    should_download fs' start_time end_time true fn_filter aws_file local_file' l'
      = (r, l', []).
Proof.
  rewrite !should_download_cases. cbv zeta.
  destruct (filter_rejects fn_filter (basename aws_file)); [eauto|].
  destruct (file_time (basename aws_file)) as [t|e]; [|eauto].
  destruct (negb (DT.le start_time t && DT.lt t end_time)); eauto.
Qed.

(** C2 — size-difference correctness. For an object that passes the filter
    and whose file time is in the window: with [overwrite] the answer is
    [True]; without it the answer is [True] exactly when there is no local
    file, or there is one whose size differs from the size the store reports,
    and it is [False] when the sizes agree. The loop over a listing creates
    a task exactly for the accepted objects. *)
Theorem size_diff_correctness fs start_time end_time overwrite fn_filter
    aws_dir local_dir path l t :
  let aws_file := aws_file_of aws_dir path in
  let local_file := local_file_of local_dir path in
  let decision :=
    outcome_of (should_download fs start_time end_time overwrite fn_filter
                  aws_file local_file l) in
  filter_rejects fn_filter (basename path) = false ->
  file_time (basename path) = Ok t ->
  DT.le start_time t = true -> DT.lt t end_time = true ->
  (overwrite = true -> decision = Done true) /\
  (overwrite = false ->
     (decision = Done true <->
        files l !! local_file = None \/
        exists local_size aws_size,
          files l !! local_file = Some local_size /\
          info_size fs aws_file = Ok aws_size /\ aws_size <> local_size) /\
     (forall size, files l !! local_file = Some size ->
                   info_size fs aws_file = Ok size -> decision = Done false)) /\
  (decision = Done true ->
     outcome_of (collect_jobs fs start_time end_time overwrite fn_filter
                   aws_dir local_dir [path] [] l) = Done [(aws_file, local_file)]) /\
  (decision = Done false ->
     outcome_of (collect_jobs fs start_time end_time overwrite fn_filter
                   aws_dir local_dir [path] [] l) = Done []).
Proof.
  intros aws_file local_file decision Hf Ht Hle Hlt.
  assert (Hd : decision =
               if overwrite then Done true
               else match files l !! local_file with
                    | None => Done true
                    | Some local_size =>
                        match info_size fs aws_file with
                        | Ok aws_size => Done (negb (aws_size =? local_size))
                        | Err e => Raised e
                        end
                    end).
  { subst decision. rewrite should_download_cases. cbv zeta.
    subst aws_file. rewrite basename_aws_file_of, Hf, Ht, Hle, Hlt. cbn [negb andb].
    destruct overwrite; [reflexivity|].
    destruct (files l !! local_file); [|reflexivity].
    destruct (info_size fs (aws_file_of aws_dir path)); reflexivity. }
  repeat split.
  - intros ->. exact Hd.
  - rewrite Hd, H. destruct (files l !! local_file) as [n|]; [|auto].
    destruct (info_size fs aws_file) as [s|e]; [|discriminate].
    intros [= Hneq]. right. exists n, s. repeat split.
    apply negb_true_iff, Z.eqb_neq in Hneq. exact Hneq.
  - rewrite Hd, H. intros [Hnone | (n & s & Hn & Hs & Hneq)].
    + now rewrite Hnone.
    + rewrite Hn, Hs. apply Z.eqb_neq in Hneq. now rewrite Hneq.
  - intros size Hsize Hinfo. rewrite Hd, H, Hsize, Hinfo, Z.eqb_refl. reflexivity.
  - intros Hacc. rewrite collect_jobs_cons, bind_run.
    subst decision. fold aws_file local_file.
    destruct (should_download _ _ _ _ _ aws_file local_file l) as [[r l1] t1].
    cbn in Hacc. subst r. reflexivity.
  - intros Hrej. rewrite collect_jobs_cons, bind_run.
    subst decision. fold aws_file local_file.
    destruct (should_download _ _ _ _ _ aws_file local_file l) as [[r l1] t1].
    cbn in Hrej. subst r. reflexivity.
Qed.

Lemma size_diff_correctness_witness :
  let aws_dir := "s3://noaa-goes16/P1/2020/001/05" in
  let local_dir := "/data/noaa-goes16/P1/2020/001/05" in
  let path := "noaa-goes16/P1/2020/001/05/" +:+ Scenario.in_window_name in
  let l := {| files := {[ local_file_of local_dir path := 3 ]}; dirs := ∅ |} in
  outcome_of (should_download Scenario.store Scenario.window_start Scenario.window_end
                false None (aws_file_of aws_dir path) (local_file_of local_dir path) l)
    = Done true /\
  outcome_of (collect_jobs Scenario.store Scenario.window_start Scenario.window_end
                false None aws_dir local_dir [path] [] l)
    = Done [(aws_file_of aws_dir path, local_file_of local_dir path)].
Proof.
  intros aws_dir local_dir path l.
  destruct (size_diff_correctness Scenario.store Scenario.window_start
              Scenario.window_end false None aws_dir local_dir path l
              (Scenario.at_2020_001 5 30) eq_refl eq_refl eq_refl eq_refl)
    as (_ & Hno & Htask & _).
  destruct (Hno eq_refl) as [Hiff _].
  assert (Hacc : outcome_of
                   (should_download Scenario.store Scenario.window_start
                      Scenario.window_end false None (aws_file_of aws_dir path)
                      (local_file_of local_dir path) l) = Done true).
  { apply Hiff. right. exists 3, 7. repeat split. lia. }
  split; [exact Hacc | exact (Htask Hacc)].
Defined.

(** * Dry run *)

Section DryRun.

Variable fs : remote_store.
Variable mirror_dir : string.
Variable products : list string.
Variables start_time end_time : datetime.
Variable sats : list string.
Variable overwrite : bool.
Variable fn_filter : option (string -> bool).

Lemma read_event_not_a_write e : read_event e -> not_a_write e.
Proof. destruct e; cbn; tauto. Qed.

Lemma collect_jobs_dry aws_dir local_dir paths :
  forall jobs,
    keeps_fs (collect_jobs fs start_time end_time overwrite fn_filter
                aws_dir local_dir paths jobs) /\
    logs_only not_a_write
      (collect_jobs fs start_time end_time overwrite fn_filter
         aws_dir local_dir paths jobs).
Proof.
  induction paths as [|path rest IH]; intros jobs.
  - split; [apply keeps_fs_ret | apply logs_only_ret].
  - rewrite collect_jobs_cons. split.
    + apply keeps_fs_bind; [apply should_download_keeps_fs|].
      intros [|]; (apply keeps_fs_bind; [apply keeps_fs_emit | intros _; apply IH]).
    + apply logs_only_bind.
      * eapply logs_only_weaken; [apply read_event_not_a_write|].
        apply should_download_reads.
      * intros [|];
          (apply logs_only_bind;
           [apply logs_only_emit; exact I | intros _; apply IH]).
Qed.

(** In a dry run a task only prints its two messages. *)
Lemma download_dry aws_file local_file l :
  download fs true aws_file local_file l =
  (Done tt, l, [EvPrint ("Started downloading " +:+ basename aws_file);
                EvPrint ("Finished downloading " +:+ basename aws_file)]).
Proof. reflexivity. Qed.

Lemma compute_dry jobs :
  keeps_fs (compute fs true jobs) /\ logs_only not_a_write (compute fs true jobs).
Proof.
  split.
  - apply keeps_fs_for_each. intros j _ l. now rewrite download_dry.
  - apply logs_only_for_each. intros j _ l. rewrite download_dry.
    repeat constructor.
Qed.

Lemma fs_ls_dry aws_dir :
  keeps_fs (fs_ls fs aws_dir) /\ logs_only not_a_write (fs_ls fs aws_dir).
Proof.
  split; intros l; unfold fs_ls; destruct (ls fs aws_dir); cbn;
    repeat constructor.
Qed.

Lemma bucket_body_dry product sat h :
  keeps_fs (bucket_body fs mirror_dir start_time end_time overwrite true fn_filter
              product sat h) /\
  logs_only not_a_write
    (bucket_body fs mirror_dir start_time end_time overwrite true fn_filter
       product sat h).
Proof.
  unfold bucket_body. cbn [negb]. split.
  - apply keeps_fs_bind; [apply fs_ls_dry|]. intros paths.
    apply keeps_fs_bind; [apply keeps_fs_ret|]. intros _.
    apply keeps_fs_bind; [apply collect_jobs_dry|]. intros jobs.
    apply compute_dry.
  - apply logs_only_bind; [apply fs_ls_dry|]. intros paths.
    apply logs_only_bind; [apply logs_only_ret|]. intros _.
    apply logs_only_bind; [apply collect_jobs_dry|]. intros jobs.
    apply compute_dry.
Qed.

Lemma hour_loop_dry fuel product sat last h :
  keeps_fs (hour_loop fs mirror_dir start_time end_time overwrite true fn_filter
              fuel product sat last h) /\
  logs_only not_a_write
    (hour_loop fs mirror_dir start_time end_time overwrite true fn_filter
       fuel product sat last h).
Proof.
  revert h. induction fuel as [|fuel IH]; intros h; cbn [hour_loop].
  - split; intros l; [reflexivity | constructor].
  - destruct (DT.le h last); [|split; [apply keeps_fs_ret | apply logs_only_ret]].
    split.
    + apply keeps_fs_bind; [|intros r; apply IH].
      apply keeps_fs_try_finally; [|apply keeps_fs_lift].
      apply keeps_fs_try_except; [apply bucket_body_dry | apply keeps_fs_emit].
    + apply logs_only_bind; [|intros r; apply IH].
      apply logs_only_try_finally; [|apply logs_only_lift].
      apply logs_only_try_except; [apply bucket_body_dry|].
      apply logs_only_emit. exact I.
Qed.

End DryRun.

(** C9 — dry run. With [test] set, a run of [mirror_s3] leaves the local
    file system exactly as it found it (no file written, no directory
    created) and logs neither a directory creation nor a transfer, whatever
    the buckets hold and however the run ends; a download task only prints
    its "Started" and "Finished" messages. *)
Theorem dry_run_no_writes fs mirror_dir products start_time end_time sats
    overwrite fn_filter l :
  let run := mirror_s3 fs mirror_dir products start_time end_time sats
               overwrite true fn_filter l in
  fs_of run = l /\
  Forall not_a_write (trace_of run) /\
  forall aws_file local_file l',
    download fs true aws_file local_file l' =
    (Done tt, l', [EvPrint ("Started downloading " +:+ basename aws_file);
                   EvPrint ("Finished downloading " +:+ basename aws_file)]).
Proof.
  cbv zeta. split; [|split].
  - revert l. unfold mirror_s3.
    apply keeps_fs_for_each. intros product _.
    apply keeps_fs_for_each. intros sat _. apply hour_loop_dry.
  - revert l. unfold mirror_s3.
    apply logs_only_for_each. intros product _.
    apply logs_only_for_each. intros sat _. apply hour_loop_dry.
  - intros. apply download_dry.
Qed.

(** * The loop over the hours *)

Lemma ls_events_app (t1 t2 : list event) :
  ls_events (t1 ++ t2) = ls_events t1 ++ ls_events t2.
Proof.
  induction t1 as [|e t1 IH]; [reflexivity|].
  destruct e; cbn; rewrite IH; reflexivity.
Qed.

Lemma ls_events_none (t : list event) : Forall not_ls t -> ls_events t = [].
Proof.
  induction 1 as [|e t He _ IH]; [reflexivity|].
  destruct e; cbn in *; tauto.
Qed.

(** ** Hour arithmetic *)

Lemma hour_floor_aligned (t : datetime) : DT.valid t -> aligned (DT.hour_floor t).
Proof. intros (_ & Hh & _). repeat split; cbn; lia. Qed.

Lemma hour_index_floor (t : datetime) : DT.hour_index (DT.hour_floor t) = DT.hour_index t.
Proof. reflexivity. Qed.

Lemma hour_bucket_index (h : datetime) : aligned h -> hour_bucket (DT.hour_index h) = h.
Proof.
  intros (Hh & Hm & Hs & Hu). destruct h as [o hh mi se us]. cbn in *. subst.
  unfold hour_bucket, DT.hour_index. cbn. f_equal.
  - symmetry. apply (Z.div_unique _ 24 o hh); lia.
  - symmetry. apply (Z.mod_unique _ 24 o hh); lia.
Qed.

Lemma hour_bucket_floor (t : datetime) :
  DT.valid t -> hour_bucket (DT.hour_index t) = DT.hour_floor t.
Proof.
  intros Hv. rewrite <- hour_index_floor.
  apply hour_bucket_index, hour_floor_aligned, Hv.
Qed.

Lemma dt_le_aligned (a b : datetime) :
  aligned a -> aligned b ->
  DT.le a b = true <-> DT.hour_index a <= DT.hour_index b.
Proof.
  intros (_ & Ha1 & Ha2 & Ha3) (_ & Hb1 & Hb2 & Hb3).
  unfold DT.le, DT.to_microseconds. rewrite Ha1, Ha2, Ha3, Hb1, Hb2, Hb3.
  rewrite Z.leb_le. lia.
Qed.

Lemma add_hour_aligned (h h' : datetime) :
  aligned h -> DT.add_hours h 1 = Ok h' ->
  aligned h' /\ DT.hour_index h' = DT.hour_index h + 1.
Proof.
  intros (Hh & Hm & Hs & Hu). unfold DT.add_hours.
  destruct ((0 <? _) && _); [|discriminate]. intros [= <-].
  unfold aligned, DT.hour_index. cbn.
  pose proof (Z.mod_pos_bound (hour h + 1) 24 ltac:(lia)).
  pose proof (Z.div_mod (hour h + 1) 24 ltac:(lia)).
  repeat split; try assumption; lia.
Qed.

(** ** One iteration *)

Section Loop.

Variable fs : remote_store.
Variable mirror_dir : string.
Variable products : list string.
Variables start_time end_time : datetime.
Variable sats : list string.
Variable overwrite : bool.
Variable test : bool.
Variable fn_filter : option (string -> bool).

Local Abbreviation bucket_body' :=
  (bucket_body fs mirror_dir start_time end_time overwrite test fn_filter).
Local Abbreviation hour_loop' :=
  (hour_loop fs mirror_dir start_time end_time overwrite test fn_filter).

Lemma hour_loop_run fuel product sat last h l :
  DT.le h last = true ->
  hour_loop' (S fuel) product sat last h l =
  match after_bucket fs mirror_dir start_time end_time overwrite test fn_filter
          product sat h l with
  | (Done h', l1, t1) =>
      let x := hour_loop' fuel product sat last h' l1 in
      (outcome_of x, fs_of x, t1 ++ trace_of x)
  | (Raised e, l1, t1) => (Raised e, l1, t1)
  | (NoFuel, l1, t1) => (NoFuel, l1, t1)
  end.
Proof.
  intros Hle. cbn [hour_loop]. rewrite Hle, bind_run.
  unfold after_bucket, try_finally, try_bucket, try_except_fnf, print, emit.
  destruct (bucket_body' product sat h l) as [[[[]|e|] l1] t1];
    [|destruct e|];
    destruct (DT.add_hours h 1) as [h'|e']; cbn;
    rewrite ?app_nil_r; reflexivity.
Qed.

Lemma hour_loop_exit fuel product sat last h l :
  DT.le h last = false ->
  hour_loop' (S fuel) product sat last h l = (Done tt, l, []).
Proof. intros Hle. cbn [hour_loop]. now rewrite Hle. Qed.

End Loop.

(** ** Which directories a computation lists *)

Lemma lists_exactly_ret {A} (a : A) : lists_exactly (ret a) [].
Proof. intros l. split; [discriminate | reflexivity]. Qed.

Lemma lists_exactly_lift {A} (r : result A) : lists_exactly (lift r) [].
Proof. intros l. destruct r; split; (discriminate || reflexivity). Qed.

Lemma lists_exactly_emit (e : event) : not_ls e -> lists_exactly (emit e) [].
Proof. intros He l. split; [discriminate|]. destruct e; cbn in *; tauto. Qed.

Lemma lists_exactly_bind {A B} (m : M A) (f : A -> M B) (D : list string) :
  lists_exactly m D -> (forall a, lists_exactly (f a) []) ->
  lists_exactly (bind m f) D.
Proof.
  intros Hm Hf l. rewrite bind_run. destruct (Hm l) as [Hm1 Hm2].
  destruct (m l) as [[[a|e|] l1] t1]; cbn in *; try (split; [discriminate|assumption]);
    [|congruence].
  destruct (Hf a l1) as [Hf1 Hf2]. split; [exact Hf1|].
  rewrite ls_events_app, Hm2, Hf2. apply app_nil_r.
Qed.

Lemma lists_exactly_for_each {A} (xs : list A) (body : A -> M unit) :
  (forall x, lists_exactly (body x) []) -> lists_exactly (for_each xs body) [].
Proof.
  intros H. induction xs as [|x xs IH]; cbn [for_each].
  - apply lists_exactly_ret.
  - apply lists_exactly_bind; [apply H | intros _; exact IH].
Qed.

Lemma visits_ret {A} (a : A) : visits (ret a) [].
Proof. intros l. split; [discriminate|]. split; [apply prefix_nil | reflexivity]. Qed.

Lemma visits_bind {A B} (m : M A) (f : A -> M B) (D1 D2 : list string) :
  visits m D1 -> (forall a, visits (f a) D2) -> visits (bind m f) (D1 ++ D2).
Proof.
  intros Hm Hf l. rewrite bind_run. destruct (Hm l) as (Hm1 & Hm2 & Hm3).
  destruct (m l) as [[[a|e|] l1] t1]; cbn in *.
  - destruct (Hf a l1) as (Hf1 & Hf2 & Hf3).
    rewrite ls_events_app, (Hm3 a eq_refl).
    split; [exact Hf1|]. split; [apply prefix_app, Hf2|].
    intros b Hb. now rewrite (Hf3 b Hb).
  - split; [discriminate|]. split; [apply prefix_app_r, Hm2 | discriminate].
  - congruence.
Qed.

Lemma visits_for_each {A} (xs : list A) (body : A -> M unit) (D : A -> list string) :
  (forall x, visits (body x) (D x)) -> visits (for_each xs body) (flat_map D xs).
Proof.
  intros H. induction xs as [|x xs IH]; cbn [for_each flat_map].
  - apply visits_ret.
  - apply visits_bind; [apply H | intros _; exact IH].
Qed.

Section Visits.

Variable fs : remote_store.
Variable mirror_dir : string.
Variable products : list string.
Variables start_time end_time : datetime.
Variable sats : list string.
Variable overwrite : bool.
Variable test : bool.
Variable fn_filter : option (string -> bool).

Lemma should_download_quiet aws_file local_file :
  lists_exactly
    (should_download fs start_time end_time overwrite fn_filter aws_file local_file) [].
Proof.
  intros l. rewrite should_download_cases. cbv zeta.
  repeat (match goal with |- context [match ?x with _ => _ end] => destruct x end;
          try (split; [discriminate | reflexivity])).
Qed.

Lemma collect_jobs_quiet aws_dir local_dir paths :
  forall jobs,
    lists_exactly
      (collect_jobs fs start_time end_time overwrite fn_filter
         aws_dir local_dir paths jobs) [].
Proof.
  induction paths as [|path rest IH]; intros jobs.
  - apply lists_exactly_ret.
  - rewrite collect_jobs_cons.
    apply lists_exactly_bind; [apply should_download_quiet|].
    intros [|];
      (apply lists_exactly_bind;
       [apply lists_exactly_emit; exact I | intros _; apply IH]).
Qed.

Lemma fs_get_quiet aws_file local_file : lists_exactly (fs_get fs aws_file local_file) [].
Proof.
  intros l. unfold fs_get. destruct (get fs aws_file);
    (split; [discriminate | reflexivity]).
Qed.

Lemma compute_quiet jobs : lists_exactly (compute fs test jobs) [].
Proof.
  apply lists_exactly_for_each. intros j. unfold download.
  apply lists_exactly_bind; [apply lists_exactly_emit; exact I|]. intros _.
  apply lists_exactly_bind; [|intros _; apply lists_exactly_emit; exact I].
  destruct test; cbn [negb]; [apply lists_exactly_ret | apply fs_get_quiet].
Qed.

Lemma os_makedirs_quiet d : lists_exactly (os_makedirs d) [].
Proof.
  intros l. unfold os_makedirs. destruct (files l !! d);
    (split; [discriminate | reflexivity]).
Qed.

(** The body for one hour lists the directory of that hour, once, and
    nothing else. *)
Lemma bucket_body_lists product sat h :
  lists_exactly
    (bucket_body fs mirror_dir start_time end_time overwrite test fn_filter
       product sat h)
    [aws_dir_of product sat h].
Proof.
  unfold bucket_body. apply lists_exactly_bind.
  - intros l. unfold fs_ls. destruct (ls fs _);
      (split; [discriminate | reflexivity]).
  - intros paths. apply lists_exactly_bind.
    { destruct test; cbn [negb]; [apply lists_exactly_ret | apply os_makedirs_quiet]. }
    intros _. apply lists_exactly_bind; [apply collect_jobs_quiet|].
    intros jobs. apply compute_quiet.
Qed.

Lemma after_bucket_lists product sat h l :
  let x := after_bucket fs mirror_dir start_time end_time overwrite test fn_filter
             product sat h l in
  outcome_of x <> NoFuel /\ ls_events (trace_of x) = [aws_dir_of product sat h].
Proof.
  cbv zeta. unfold after_bucket.
  destruct (bucket_body_lists product sat h l) as [H1 H2].
  destruct (bucket_body _ _ _ _ _ _ _ product sat h l) as [[[[]|e|] l1] t1];
    cbn in H1, H2; [| |congruence].
  - destruct (DT.add_hours h 1); (split; [discriminate | exact H2]).
  - destruct e; destruct (DT.add_hours h 1); cbn;
      rewrite ?ls_events_app, ?H2; (split; [discriminate | reflexivity]).
Qed.

(** The loop for one (product, satellite) pair visits the buckets from [h]
    to [last], given fuel for one test of the condition more than there are
    buckets. *)
Lemma hour_loop_visits product sat last :
  aligned last ->
  forall (n fuel : nat) (h : datetime),
    aligned h ->
    Z.to_nat (DT.hour_index last - DT.hour_index h + 1) = n ->
    (n < fuel)%nat ->
    visits (hour_loop fs mirror_dir start_time end_time overwrite test fn_filter
              fuel product sat last h)
      (map (aws_dir_of product sat)
         (map hour_bucket
            (seqZ (DT.hour_index h) (DT.hour_index last - DT.hour_index h + 1)))).
Proof.
  intros Hlast. induction n as [|n IH]; intros fuel h Hh Hn Hfuel l;
    (destruct fuel as [|fuel]; [lia|]).
  - assert (Hgt : DT.le h last = false).
    { apply not_true_is_false. rewrite dt_le_aligned by assumption. lia. }
    rewrite hour_loop_exit by exact Hgt.
    rewrite seqZ_nil by lia. apply (visits_ret tt l).
  - assert (Hle : DT.le h last = true) by (apply dt_le_aligned; [assumption..|lia]).
    rewrite hour_loop_run by exact Hle.
    rewrite seqZ_cons by lia. cbn [map].
    rewrite (hour_bucket_index h Hh).
    pose proof (after_bucket_lists product sat h l) as [Hnf Hls]. cbv zeta in Hnf, Hls.
    pose proof (add_hour_aligned h) as Hadd.
    assert (Hnext : forall h' l1 t1,
               after_bucket fs mirror_dir start_time end_time overwrite test fn_filter
                 product sat h l = (Done h', l1, t1) ->
               DT.add_hours h 1 = Ok h').
    { intros h' l1 t1. unfold after_bucket.
      destruct (bucket_body _ _ _ _ _ _ _ product sat h l) as [[[[]|e|] l0] t0];
        [|destruct e|]; destruct (DT.add_hours h 1); congruence. }
    destruct (after_bucket _ _ _ _ _ _ _ product sat h l) as [[[h'|e|] l1] t1];
      cbn in Hnf, Hls; [| |congruence].
    + destruct (Hadd h' Hh (Hnext _ _ _ eq_refl)) as [Hh' Hidx].
      assert (Hn' : Z.to_nat (DT.hour_index last - DT.hour_index h' + 1) = n) by lia.
      destruct (IH fuel h' Hh' Hn' ltac:(lia) l1) as (IH1 & IH2 & IH3).
      replace (Z.succ (DT.hour_index h)) with (DT.hour_index h') by lia.
      replace (Z.pred (DT.hour_index last - DT.hour_index h + 1))
        with (DT.hour_index last - DT.hour_index h' + 1) by lia.
      cbn [outcome_of trace_of fst snd]. rewrite ls_events_app, Hls.
      split; [exact IH1|]. split.
      * apply (prefix_app [_]), IH2.
      * intros a Ha. cbn. f_equal. exact (IH3 a Ha).
    + cbn [outcome_of trace_of fst snd]. rewrite Hls.
      split; [discriminate|]. split; [apply (prefix_app [_] []), prefix_nil|discriminate].
Qed.

Lemma mirror_s3_visits :
  DT.valid start_time -> DT.valid end_time ->
  visits (mirror_s3 fs mirror_dir products start_time end_time sats
            overwrite test fn_filter)
    (expected_dirs products sats start_time end_time).
Proof.
  intros Hs He. unfold mirror_s3, expected_dirs.
  apply visits_for_each. intros product.
  apply visits_for_each. intros sat.
  unfold expected_buckets.
  change (DT.hour_index start_time) with (DT.hour_index (first_hour start_time)).
  change (DT.hour_index end_time) with (DT.hour_index (last_hour end_time)).
  apply (hour_loop_visits product sat (last_hour end_time)
           (hour_floor_aligned _ He)
           (Z.to_nat (DT.hour_index (last_hour end_time)
                      - DT.hour_index (first_hour start_time) + 1))).
  - apply hour_floor_aligned, Hs.
  - reflexivity.
  - unfold loop_fuel. lia.
Qed.

End Visits.

(** ** The shape of the bucket sequence *)

Lemma validb_valid (d : datetime) : DT.validb d = true -> DT.valid d.
Proof. unfold DT.validb, DT.valid. rewrite !andb_true_iff. lia. Qed.

Lemma hour_index_le_of_lt (a b : datetime) :
  DT.valid a -> DT.valid b -> DT.lt a b = true ->
  DT.hour_index a <= DT.hour_index b.
Proof.
  intros (_ & _ & Ham & Has & Hau) (_ & _ & Hbm & Hbs & Hbu).
  unfold DT.lt, DT.to_microseconds. rewrite Z.ltb_lt. lia.
Qed.

Lemma add_hour_bucket (i : Z) :
  0 < (i + 1) / 24 <= DT.MAXORDINAL ->
  DT.add_hours (hour_bucket i) 1 = Ok (hour_bucket (i + 1)).
Proof.
  intros Hr. unfold DT.add_hours, hour_bucket. cbn.
  assert (Hd : i / 24 + (i mod 24 + 1) / 24 = (i + 1) / 24).
  { rewrite <- Z.div_add_l by lia. f_equal.
    pose proof (Z.div_mod i 24 ltac:(lia)). lia. }
  assert (Hm : (i mod 24 + 1) mod 24 = (i + 1) mod 24).
  { rewrite Z.add_mod_idemp_l by lia. reflexivity. }
  rewrite Hd, Hm.
  destruct (Z.ltb_spec 0 ((i + 1) / 24)); [|lia].
  destruct (Z.leb_spec ((i + 1) / 24) DT.MAXORDINAL); [|lia].
  reflexivity.
Qed.

Lemma hour_bucket_lt (i : Z) : DT.lt (hour_bucket i) (hour_bucket (i + 1)) = true.
Proof.
  unfold DT.lt, DT.to_microseconds, DT.hour_index, hour_bucket. cbn.
  apply Z.ltb_lt.
  pose proof (Z.div_mod i 24 ltac:(lia)).
  pose proof (Z.div_mod (i + 1) 24 ltac:(lia)). lia.
Qed.

Lemma expected_buckets_shape (start_time end_time : datetime) :
  DT.valid start_time -> DT.valid end_time -> DT.lt start_time end_time = true ->
  let buckets := expected_buckets start_time end_time in
  head buckets = Some (DT.hour_floor start_time) /\
  last buckets = Some (DT.hour_floor end_time) /\
  forall (i : nat) (a b : datetime),
    buckets !! i = Some a -> buckets !! S i = Some b ->
    DT.add_hours a 1 = Ok b /\ DT.lt a b = true.
Proof.
  intros Hs He Hlt buckets.
  pose proof (hour_index_le_of_lt _ _ Hs He Hlt) as Hle.
  subst buckets. unfold expected_buckets.
  split; [|split].
  - rewrite seqZ_cons by lia. cbn. now rewrite hour_bucket_floor.
  - replace (DT.hour_index end_time - DT.hour_index start_time + 1)
      with (Z.of_nat (S (Z.to_nat (DT.hour_index end_time - DT.hour_index start_time))))
      by lia.
    rewrite seqZ_S, map_app. cbn [map]. rewrite last_snoc.
    rewrite <- (hour_bucket_floor end_time He). do 2 f_equal. lia.
  - intros i a b Ha Hb.
    change (map hour_bucket ?x) with (hour_bucket <$> x) in Ha, Hb.
    rewrite list_lookup_fmap in Ha, Hb.
    destruct (seqZ _ _ !! i) as [ia|] eqn:Hia; [|discriminate].
    destruct (seqZ _ _ !! S i) as [ib|] eqn:Hib; [|discriminate].
    cbn in Ha, Hb. injection Ha as <-. injection Hb as <-.
    apply lookup_seqZ in Hia as [-> _]. apply lookup_seqZ in Hib as [-> Hrange].
    replace (DT.hour_index start_time + Z.of_nat (S i))
      with (DT.hour_index start_time + Z.of_nat i + 1) by lia.
    split; [|apply hour_bucket_lt].
    apply add_hour_bucket.
    destruct Hs as ((? & ?) & (? & ?) & _). destruct He as ((? & ?) & (? & ?) & _).
    unfold DT.hour_index in *.
    split.
    + apply Z.div_str_pos. lia.
    + transitivity ((ordinal end_time * 24 + hour end_time) / 24).
      * apply Z.div_le_mono; lia.
      * rewrite <- (Z.div_unique _ 24 (ordinal end_time) (hour end_time)) by lia. lia.
Qed.

(** C3 — bucket enumeration. For a window [start_time < end_time], every
    run of [mirror_s3] lists, for each (product, satellite) pair in loop
    order, the hour buckets from the hour containing [start_time] through the
    hour containing [end_time]: the listed directories are always an initial
    part of that sequence (an exception ends the run early) and are the whole
    sequence when the run returns; the loop never runs out of fuel. The
    bucket sequence starts at the hour of [start_time], ends at the hour of
    [end_time] and each bucket is exactly one hour after the one before. *)
Theorem bucket_enumeration fs mirror_dir products start_time end_time sats
    overwrite test fn_filter l :
  DT.valid start_time -> DT.valid end_time -> DT.lt start_time end_time = true ->
  let run := mirror_s3 fs mirror_dir products start_time end_time sats
               overwrite test fn_filter l in
  let buckets := expected_buckets start_time end_time in
  outcome_of run <> NoFuel /\
  ls_events (trace_of run) `prefix_of` expected_dirs products sats start_time end_time /\
  (outcome_of run = Done tt ->
   ls_events (trace_of run) = expected_dirs products sats start_time end_time) /\
  head buckets = Some (DT.hour_floor start_time) /\
  last buckets = Some (DT.hour_floor end_time) /\
  (forall (i : nat) (a b : datetime),
     buckets !! i = Some a -> buckets !! S i = Some b ->
     DT.add_hours a 1 = Ok b /\ DT.lt a b = true).
Proof.
  intros Hs He Hlt run buckets.
  destruct (mirror_s3_visits fs mirror_dir products start_time end_time sats
              overwrite test fn_filter Hs He l) as (H1 & H2 & H3).
  destruct (expected_buckets_shape start_time end_time Hs He Hlt) as (H4 & H5 & H6).
  repeat split; try assumption.
  - apply H3.
  - apply (H6 i a b); assumption.
  - apply (H6 i a b); assumption.
Qed.

Lemma bucket_enumeration_witness :
  let run := mirror_s3 Scenario.store "/data" ["P1"] Scenario.window_start
               Scenario.window_end ["16"] false false None empty_fs in
  outcome_of run = Done tt /\
  ls_events (trace_of run)
  = ["s3://noaa-goes16/P1/2020/001/05"; "s3://noaa-goes16/P1/2020/001/06"].
Proof.
  intros run.
  assert (Hdone : outcome_of run = Done tt) by (vm_compute; reflexivity).
  split; [exact Hdone|].
  destruct (bucket_enumeration Scenario.store "/data" ["P1"] Scenario.window_start
              Scenario.window_end ["16"] false false None empty_fs) as (_ & _ & Heq & _).
  - apply validb_valid. reflexivity.
  - apply validb_valid. reflexivity.
  - reflexivity.
  - fold run in Heq. rewrite (Heq Hdone). reflexivity.
Defined.

(** * Error handling *)

(** A time stamp that does not parse raises [IndexError] or [ValueError]:
    never the exception the driver absorbs. *)
Lemma file_time_error (fn : string) (e : error) :
  file_time fn = Err e -> e = IndexError \/ e = ValueError.
Proof.
  unfold file_time. destruct (Str.split "_" fn !! 3%nat); [|intros [= <-]; now left].
  unfold Strptime.strptime.
  repeat (match goal with |- context [match ?x with _ => _ end] => destruct x end;
          try discriminate; try (intros [= <-]; now right)).
Qed.




(** * What a run does to the local file system *)

Section Respects.

Variable R : fs_relation.
Hypothesis R_comp : compositional R.

Lemma respects_keeps_fs {A} (m : M A) : keeps_fs m -> respects R m.
Proof. intros H l. rewrite (H l). apply (comp_refl R R_comp). Qed.

Lemma respects_bind {A B} (m : M A) (f : A -> M B) :
  respects R m -> (forall a, respects R (f a)) -> respects R (bind m f).
Proof.
  intros Hm Hf l. rewrite bind_run. specialize (Hm l).
  destruct (m l) as [[[a|e|] l1] t1]; cbn in *; try exact Hm.
  apply (comp_trans R R_comp _ _ l1); [exact Hm | apply Hf].
Qed.

Lemma respects_for_each {A} (xs : list A) (body : A -> M unit) :
  (forall x, respects R (body x)) -> respects R (for_each xs body).
Proof.
  intros H. induction xs as [|x xs IH]; cbn [for_each].
  - apply respects_keeps_fs, keeps_fs_ret.
  - apply respects_bind; [apply H | intros _; exact IH].
Qed.

Lemma respects_try_except {A} (m h : M A) :
  respects R m -> respects R h -> respects R (try_except_fnf m h).
Proof.
  intros Hm Hh l. unfold try_except_fnf. specialize (Hm l).
  destruct (m l) as [[[a|e|] l1] t1]; cbn in *; try exact Hm.
  destruct e; cbn; try exact Hm.
  specialize (Hh l1). destruct (h l1) as [[r2 l2] t2]. cbn in *.
  apply (comp_trans R R_comp _ _ l1); assumption.
Qed.

Lemma respects_try_finally {A B} (m : M A) (fin : M B) :
  respects R m -> respects R fin -> respects R (try_finally m fin).
Proof.
  intros Hm Hf l. unfold try_finally. specialize (Hm l).
  destruct (m l) as [[[a|e|] l1] t1]; cbn in *; try exact Hm;
    specialize (Hf l1); destruct (fin l1) as [[[b|e'|] l2] t2]; cbn in *;
    apply (comp_trans R R_comp _ _ l1); assumption.
Qed.

Variable fs : remote_store.
Variable mirror_dir : string.
Variable products : list string.
Variables start_time end_time : datetime.
Variable sats : list string.
Variable overwrite : bool.
Variable test : bool.
Variable fn_filter : option (string -> bool).

(** The two writes of a run are in the relation. *)
Hypothesis R_makedirs : forall d, respects R (os_makedirs d).
Hypothesis R_get : forall aws_file local_file, respects R (fs_get fs aws_file local_file).

Lemma collect_jobs_respects aws_dir local_dir paths :
  forall jobs,
    respects R (collect_jobs fs start_time end_time overwrite fn_filter
                  aws_dir local_dir paths jobs).
Proof.
  induction paths as [|path rest IH]; intros jobs.
  - apply respects_keeps_fs, keeps_fs_ret.
  - rewrite collect_jobs_cons. apply respects_bind.
    + apply respects_keeps_fs, should_download_keeps_fs.
    + intros [|];
        (apply respects_bind;
         [apply respects_keeps_fs, keeps_fs_emit | intros _; apply IH]).
Qed.

Lemma download_respects aws_file local_file :
  respects R (download fs test aws_file local_file).
Proof.
  unfold download.
  apply respects_bind; [apply respects_keeps_fs, keeps_fs_emit|]. intros _.
  apply respects_bind; [|intros _; apply respects_keeps_fs, keeps_fs_emit].
  destruct test; cbn [negb]; [apply respects_keeps_fs, keeps_fs_ret | apply R_get].
Qed.

Lemma bucket_body_respects product sat h :
  respects R (bucket_body fs mirror_dir start_time end_time overwrite test
                fn_filter product sat h).
Proof.
  unfold bucket_body. apply respects_bind.
  { apply respects_keeps_fs. intros l. unfold fs_ls. now destruct (ls fs _). }
  intros paths. apply respects_bind.
  { destruct test; cbn [negb];
      [apply respects_keeps_fs, keeps_fs_ret | apply R_makedirs]. }
  intros _. apply respects_bind; [apply collect_jobs_respects|].
  intros jobs. apply respects_for_each. intros j. apply download_respects.
Qed.

Lemma hour_loop_respects fuel product sat last h :
  respects R (hour_loop fs mirror_dir start_time end_time overwrite test
                fn_filter fuel product sat last h).
Proof.
  revert h. induction fuel as [|fuel IH]; intros h; cbn [hour_loop].
  - intros l. apply (comp_refl R R_comp).
  - destruct (DT.le h last); [|apply respects_keeps_fs, keeps_fs_ret].
    apply respects_bind; [|intros r; apply IH].
    apply respects_try_finally; [|apply respects_keeps_fs, keeps_fs_lift].
    apply respects_try_except; [apply bucket_body_respects|].
    apply respects_keeps_fs, keeps_fs_emit.
Qed.

Lemma mirror_s3_respects :
  respects R (mirror_s3 fs mirror_dir products start_time end_time sats
                overwrite test fn_filter).
Proof.
  unfold mirror_s3.
  apply respects_for_each. intros product.
  apply respects_for_each. intros sat.
  apply hour_loop_respects.
Qed.

End Respects.

Lemma nothing_removed_compositional : compositional nothing_removed.
Proof.
  split.
  - intros l t. split; [auto | reflexivity].
  - intros l t1 l1 t2 l2 [Hf1 Hd1] [Hf2 Hd2]. split; [auto | set_solver].
Qed.

Lemma only_logged_writes_compositional : compositional only_logged_writes.
Proof.
  split.
  - intros l t. split; [reflexivity | tauto].
  - intros l t1 l1 t2 l2 [Hf1 Hd1] [Hf2 Hd2]. split.
    + intros p Hp. rewrite Hf2, Hf1; [reflexivity|..];
        intros aws Hin; apply (Hp aws), in_or_app; tauto.
    + intros d Hd. rewrite Hd2, Hd1; [reflexivity|..];
        intros Hin; apply Hd, in_or_app; tauto.
Qed.

Lemma os_makedirs_nothing_removed d : respects nothing_removed (os_makedirs d).
Proof.
  intros l. unfold os_makedirs. destruct l as [fl dl].
  destruct (files _ !! d); fs_step_simpl.
  - split; [auto | reflexivity].
  - split; [auto | set_solver].
Qed.

Lemma fs_get_nothing_removed fs aws_file local_file :
  respects nothing_removed (fs_get fs aws_file local_file).
Proof.
  intros l. unfold fs_get. destruct l as [fl dl].
  destruct (get fs aws_file); fs_step_simpl.
  - split; [|reflexivity]. intros p Hp.
    destruct (decide (local_file = p)) as [->|Hne].
    + rewrite lookup_insert_eq. eauto.
    + now rewrite lookup_insert_ne.
  - split; [auto | reflexivity].
Qed.

Lemma os_makedirs_only_logged d : respects only_logged_writes (os_makedirs d).
Proof.
  intros l. unfold os_makedirs. destruct l as [fl dl].
  destruct (files _ !! d); fs_step_simpl.
  - split; [reflexivity | tauto].
  - split; [reflexivity|]. intros d' Hd'.
    assert (Hdd : d <> d') by (intros ->; apply Hd'; now left).
    rewrite elem_of_union, elem_of_singleton. intuition congruence.
Qed.

Lemma fs_get_only_logged fs aws_file local_file :
  respects only_logged_writes (fs_get fs aws_file local_file).
Proof.
  intros l. unfold fs_get. destruct l as [fl dl].
  destruct (get fs aws_file); fs_step_simpl.
  - split; [|tauto]. intros p Hp.
    apply lookup_insert_ne. intros ->. apply (Hp aws_file). now left.
  - split; [reflexivity | tauto].
Qed.

(** X1 — a run never removes anything: every local file that exists before a
    run of [mirror_s3] exists after it (possibly rewritten), and so does
    every directory, however the run ends. *)
Theorem mirror_never_removes fs mirror_dir products start_time end_time sats
    overwrite test fn_filter l :
  let run := mirror_s3 fs mirror_dir products start_time end_time sats
               overwrite test fn_filter l in
  (forall p, is_Some (files l !! p) -> is_Some (files (fs_of run) !! p)) /\
  dirs l ⊆ dirs (fs_of run).
Proof.
  apply (mirror_s3_respects nothing_removed nothing_removed_compositional).
  - apply os_makedirs_nothing_removed.
  - apply fs_get_nothing_removed.
Qed.

Lemma mirror_s3_only_logged fs mirror_dir products start_time end_time sats
    overwrite test fn_filter :
  respects only_logged_writes
    (mirror_s3 fs mirror_dir products start_time end_time sats overwrite test fn_filter).
Proof.
  apply (mirror_s3_respects only_logged_writes only_logged_writes_compositional).
  - apply os_makedirs_only_logged.
  - apply fs_get_only_logged.
Qed.


(** X3 — an empty or reversed window downloads nothing: when [end_time] is not
    after [start_time], no run creates a task or starts a transfer, and the
    local files are left as they were. *)
Theorem empty_window_downloads_nothing fs mirror_dir products start_time end_time
    sats overwrite test fn_filter l :
  DT.le end_time start_time = true ->
  let run := mirror_s3 fs mirror_dir products start_time end_time sats
               overwrite test fn_filter l in
  (forall aws_file local_file,
     ~ In (EvTask aws_file local_file) (trace_of run) /\
     ~ In (EvGet aws_file local_file) (trace_of run)) /\
  files (fs_of run) = files l.
Proof.
  intros Hle run.
  assert (Hnone : forall aws_file local_file,
             ~ In (EvTask aws_file local_file) (trace_of run) /\
             ~ In (EvGet aws_file local_file) (trace_of run)).
  { pose proof (mirror_s3_tasks fs mirror_dir products start_time end_time sats
                  overwrite test fn_filter (in_window start_time end_time)) as Hall.
    specialize (Hall ltac:(intros ? ? ? ? ? H; eapply should_download_true, H) l).
    fold run in Hall. rewrite Forall_forall in Hall.
    assert (Hno : forall fn, ~ in_window start_time end_time fn).
    { intros fn (t & _ & H1 & H2).
      unfold DT.le, DT.lt in *. rewrite Z.leb_le in *. rewrite Z.ltb_lt in *. lia. }
    intros aws_file local_file.
    split; intros Hin; apply list_elem_of_In, Hall in Hin; exact (Hno _ Hin). }
  split; [exact Hnone|].
  apply map_eq. intros p.
  apply (mirror_s3_only_logged fs mirror_dir products start_time end_time sats
           overwrite test fn_filter l).
  intros aws_file. apply Hnone.
Qed.

Lemma empty_window_downloads_nothing_witness :
  let run := mirror_s3 Scenario.store "/data" ["P1"] Scenario.window_end
               Scenario.window_start ["16"] false false None empty_fs in
  (forall aws_file local_file,
     ~ In (EvTask aws_file local_file) (trace_of run) /\
     ~ In (EvGet aws_file local_file) (trace_of run)) /\
  files (fs_of run) = files empty_fs.
Proof.
  apply (empty_window_downloads_nothing Scenario.store "/data" ["P1"]
           Scenario.window_end Scenario.window_start ["16"] false false None empty_fs).
  reflexivity.
Defined.

(** * Tasks and transfers of one bucket *)

Lemma task_events_app (t1 t2 : list event) :
  task_events (t1 ++ t2) = task_events t1 ++ task_events t2.
Proof.
  induction t1 as [|e t1 IH]; [reflexivity|].
  destruct e; cbn; rewrite IH; reflexivity.
Qed.

Lemma get_events_app (t1 t2 : list event) :
  get_events (t1 ++ t2) = get_events t1 ++ get_events t2.
Proof.
  induction t1 as [|e t1 IH]; [reflexivity|].
  destruct e; cbn; rewrite IH; reflexivity.
Qed.

Lemma read_events_no_task (t : list event) :
  Forall read_event t -> task_events t = [] /\ get_events t = [].
Proof.
  induction 1 as [|e t He _ [IH1 IH2]]; [split; reflexivity|].
  destruct e; cbn in *; tauto.
Qed.

Section Batch.

Variable fs : remote_store.
Variable mirror_dir : string.
Variables start_time end_time : datetime.
Variable overwrite : bool.
Variable fn_filter : option (string -> bool).

(** The loop over a listing starts no transfer, and the jobs it returns are
    the tasks it logged. *)
Lemma collect_jobs_batch aws_dir local_dir paths :
  forall jobs l,
    let x := collect_jobs fs start_time end_time overwrite fn_filter
               aws_dir local_dir paths jobs l in
    get_events (trace_of x) = [] /\
    forall jobs', outcome_of x = Done jobs' -> jobs' = jobs ++ task_events (trace_of x).
Proof.
  induction paths as [|path rest IH]; intros jobs l; cbv zeta.
  - cbn. split; [reflexivity|]. intros jobs' [= <-]. now rewrite app_nil_r.
  - rewrite collect_jobs_cons, bind_run.
    pose proof (should_download_reads fs start_time end_time overwrite fn_filter
                  (aws_file_of aws_dir path) (local_file_of local_dir path) l) as Hr.
    destruct (should_download _ _ _ _ _ _ _ l) as [[[go|e|] l1] t1]; cbn in Hr;
      apply read_events_no_task in Hr as [Hr1 Hr2];
      [|cbn; split; [exact Hr2 | intros ? ?; discriminate]..].
    destruct go; rewrite bind_run; cbn [emit print];
      cbn [outcome_of fs_of trace_of fst snd].
    + destruct (IH (jobs ++ [(aws_file_of aws_dir path, local_file_of local_dir path)]) l1)
        as [IH1 IH2].
      rewrite get_events_app, task_events_app, Hr1, Hr2. cbn.
      split; [exact IH1|]. intros jobs' Hj. rewrite (IH2 jobs' Hj), <- app_assoc.
      reflexivity.
    + destruct (IH jobs l1) as [IH1 IH2].
      rewrite get_events_app, task_events_app, Hr1, Hr2. cbn.
      split; [exact IH1 | exact IH2].
Qed.

(** A task that is not a dry run: the transfer between its two messages,
    or the exception of the transfer after the first message. *)
Lemma download_run aws_file local_file l :
  download fs false aws_file local_file l =
  match get fs aws_file with
  | Ok n =>
      (Done tt, {| files := <[local_file:=n]> (files l); dirs := dirs l |},
       [EvPrint ("Started downloading " +:+ basename aws_file);
        EvGet aws_file local_file;
        EvPrint ("Finished downloading " +:+ basename aws_file)])
  | Err e =>
      (Raised e, l,
       [EvPrint ("Started downloading " +:+ basename aws_file);
        EvGet aws_file local_file])
  end.
Proof.
  unfold download, bind, print, emit, fs_get. cbn [negb].
  destruct (get fs aws_file); reflexivity.
Qed.



End Batch.

(** X5 — a file that was just downloaded is not downloaded again. After a
    transfer that succeeded, with the store reporting the size it transferred,
    the local file has that size, and [should_download] without [overwrite]
    does not answer [True] for the same object. *)
Theorem download_then_skip fs start_time end_time fn_filter aws_file local_file l n :
  get fs aws_file = Ok n -> info_size fs aws_file = Ok n ->
  let after := fs_of (download fs false aws_file local_file l) in
  outcome_of (download fs false aws_file local_file l) = Done tt /\
  files after !! local_file = Some n /\
  outcome_of (should_download fs start_time end_time false fn_filter
                aws_file local_file after) <> Done true.
Proof.
  intros Hget Hinfo. cbv zeta.
  rewrite download_run, Hget. cbn [outcome_of fs_of fst snd files].
  split; [reflexivity|]. split; [apply lookup_insert_eq|].
  rewrite should_download_cases. cbv zeta. cbn [files].
  rewrite lookup_insert_eq, Hinfo, Z.eqb_refl.
  repeat (match goal with |- context [match ?x with _ => _ end] => destruct x end;
          try discriminate).
Qed.

Lemma download_then_skip_witness :
  let aws_file := "s3://noaa-goes16/P1/2020/001/05/" +:+ Scenario.in_window_name in
  let local_file := "/data/noaa-goes16/P1/2020/001/05/" +:+ Scenario.in_window_name in
  let after := fs_of (download Scenario.store false aws_file local_file empty_fs) in
  outcome_of (download Scenario.store false aws_file local_file empty_fs) = Done tt /\
  files after !! local_file = Some 7 /\
  outcome_of (should_download Scenario.store Scenario.window_start Scenario.window_end
                false None aws_file local_file after) <> Done true.
Proof.
  intros aws_file local_file.
  apply (download_then_skip Scenario.store Scenario.window_start Scenario.window_end
           None aws_file local_file empty_fs 7); reflexivity.
Defined.

(** * The calendar *)

(** The year CPython computes for an ordinal is the year that contains it. *)
Lemma year_of_ordinal (n : Z) :
  1 <= n ->
  1 <= DT.ord2year n /\
  DT.days_before_year (DT.ord2year n) < n <= DT.days_before_year (DT.ord2year n + 1).
Proof.
  intros Hn. unfold DT.ord2year, DT.days_before_year, DT.DI400Y, DT.DI100Y, DT.DI4Y.
  cbv zeta.
  destruct (Z.eqb_spec ((n - 1) mod 146097 mod 36524 mod 1461 / 365) 4) as [H1|H1];
  destruct (Z.eqb_spec ((n - 1) mod 146097 / 36524) 4) as [H2|H2]; cbn [orb].
  all: Z.to_euclidean_division_equations; lia.
Qed.

Lemma days_before_year_step (a b : Z) :
  a < b -> DT.days_before_year a + 365 <= DT.days_before_year b.
Proof.
  intros H. unfold DT.days_before_year. cbv zeta.
  Z.to_euclidean_division_equations; lia.
Qed.

Lemma ord2year_unique (n Y : Z) :
  DT.days_before_year Y < n <= DT.days_before_year (Y + 1) -> 1 <= n ->
  DT.ord2year n = Y.
Proof.
  intros HY Hn. destruct (year_of_ordinal n Hn) as (_ & Hy).
  destruct (Z.lt_trichotomy (DT.ord2year n) Y) as [Hlt|[Heq|Hgt]]; [|exact Heq|].
  - pose proof (days_before_year_step (DT.ord2year n) Y Hlt).
    assert (DT.ord2year n + 1 <= Y) by lia.
    destruct (Z.eq_dec (DT.ord2year n + 1) Y) as [Heq|Hne];
      [rewrite <- Heq in HY; lia|].
    pose proof (days_before_year_step (DT.ord2year n + 1) Y ltac:(lia)). lia.
  - destruct (Z.eq_dec (Y + 1) (DT.ord2year n)) as [Heq|Hne];
      [rewrite <- Heq in Hy; lia|].
    pose proof (days_before_year_step (Y + 1) (DT.ord2year n) ltac:(lia)). lia.
Qed.

Lemma days_in_year (Y : Z) :
  DT.days_before_year (Y + 1) - DT.days_before_year Y
  = if DT.is_leap Y then 366 else 365.
Proof.
  unfold DT.days_before_year, DT.is_leap. cbv zeta.
  destruct (Z.eqb_spec (Y mod 4) 0); destruct (Z.eqb_spec (Y mod 100) 0);
    destruct (Z.eqb_spec (Y mod 400) 0); cbn [andb orb negb];
    Z.to_euclidean_division_equations; lia.
Qed.

Lemma ord2year_max (n : Z) : 1 <= n <= DT.MAXORDINAL -> DT.ord2year n <= 9999.
Proof.
  intros [Hn Hmax]. destruct (year_of_ordinal n Hn) as (_ & Hy & _).
  destruct (Z.le_gt_cases (DT.ord2year n) 9999) as [|Hgt]; [assumption|].
  pose proof (days_before_year_step 9999 (DT.ord2year n) ltac:(lia)) as H.
  change (DT.days_before_year 9999) with 3651694 in H.
  unfold DT.MAXORDINAL in Hmax. lia.
Qed.

(** The year and the day of the year of a well-formed datetime are in the
    ranges [strftime] prints with four and three digits. *)
Lemma year_yday_range (d : datetime) :
  DT.valid d -> 1 <= DT.year d <= 9999 /\ 1 <= DT.yday d <= 366.
Proof.
  intros (Ho & _). unfold DT.yday, DT.year.
  destruct (year_of_ordinal (ordinal d) ltac:(lia)) as (Hy1 & Hy2).
  pose proof (ord2year_max (ordinal d) Ho).
  pose proof (days_in_year (DT.ord2year (ordinal d))) as Hd.
  destruct (DT.is_leap _); lia.
Qed.

(** * Decimal digits *)

Module DigitFacts.
Import Str.

Lemma N_of_digit_char (d : Z) :
  0 <= d <= 9 -> Z.of_N (N_of_ascii (digit_char d)) = 48 + d.
Proof.
  intros Hd. unfold digit_char.
  rewrite N_ascii_embedding by lia. lia.
Qed.

Lemma digit_val_char (d : Z) : 0 <= d <= 9 -> digit_val (digit_char d) = d.
Proof. intros Hd. unfold digit_val. rewrite N_of_digit_char by exact Hd. lia. Qed.

Lemma digit_char_inj (a b : Z) :
  0 <= a <= 9 -> 0 <= b <= 9 -> digit_char a = digit_char b -> a = b.
Proof.
  intros Ha Hb H. apply (f_equal digit_val) in H.
  now rewrite !digit_val_char in H.
Qed.

(** A digit is in a character class exactly when its value is between the
    values of the bounds. *)
Lemma in_atom_digit (a : Strptime.atom) (d : Z) :
  0 <= d <= 9 ->
  Strptime.in_atom a (digit_char d)
  = (digit_val (fst a) <=? d) && (d <=? digit_val (snd a)).
Proof.
  intros Hd. unfold Strptime.in_atom, digit_val.
  pose proof (N_of_digit_char d Hd) as Hn.
  f_equal.
  - destruct (N.leb_spec (N_of_ascii (fst a)) (N_of_ascii (digit_char d)));
      destruct (Z.leb_spec (Z.of_N (N_of_ascii (fst a)) - 48) d); try reflexivity; lia.
  - destruct (N.leb_spec (N_of_ascii (digit_char d)) (N_of_ascii (snd a)));
      destruct (Z.leb_spec d (Z.of_N (N_of_ascii (snd a)) - 48)); try reflexivity; lia.
Qed.


(** A character that is not a digit does not occur in a printed number. *)
Lemma zfill_contains (c : ascii) (w : nat) (n : Z) :
  (forall d, 0 <= d <= 9 -> digit_char d <> c) ->
  contains c (zfill w n) = false.
Proof.
  intros Hc. revert n. induction w as [|w IH]; intros n; [reflexivity|].
  cbn [zfill]. rewrite StrFacts.contains_append, IH. cbn.
  rewrite orb_false_r. apply Ascii.eqb_neq, Hc.
  pose proof (Z.mod_pos_bound n 10). lia.
Qed.

Lemma zfill_not_empty (w : nat) (n : Z) : is_empty (zfill (S w) n) = false.
Proof.
  cbn [zfill]. destruct (zfill w (n / 10)); reflexivity.
Qed.

Lemma int_of_digits_snoc (s : string) (c : ascii) :
  int_of_digits (s +:+ String c "") = 10 * int_of_digits s + digit_val c.
Proof.
  unfold int_of_digits. generalize 0 as acc.
  induction s as [|x s IH]; intros acc; [reflexivity|].
  simpl. apply IH.
Qed.

(** Reading a printed number gives the number back. *)
Lemma int_of_digits_zfill (w : nat) (n : Z) :
  0 <= n < 10 ^ Z.of_nat w -> int_of_digits (zfill w n) = n.
Proof.
  revert n. induction w as [|w IH]; intros n Hn.
  - cbn in *. lia.
  - cbn [zfill]. rewrite int_of_digits_snoc.
    rewrite Nat2Z.inj_succ, Z.pow_succ_r in Hn by lia.
    rewrite IH by (split; [apply Z.div_pos; lia | apply Z.div_lt_upper_bound; lia]).
    rewrite digit_val_char by (pose proof (Z.mod_pos_bound n 10); lia).
    pose proof (Z.div_mod n 10). lia.
Qed.

Lemma zfill_inj (w : nat) (n m : Z) :
  0 <= n < 10 ^ Z.of_nat w -> 0 <= m < 10 ^ Z.of_nat w ->
  zfill w n = zfill w m -> n = m.
Proof.
  intros Hn Hm H. apply (f_equal int_of_digits) in H.
  now rewrite !int_of_digits_zfill in H.
Qed.

End DigitFacts.

(** * Parsing a time stamp *)

Module StrptimeFacts.
Import Str.

Lemma match_groups_alt a l gs s :
  Strptime.match_groups ((a :: l) :: gs) s =
  match Strptime.match_atoms a s with
  | Some (m, r) =>
      match Strptime.match_groups gs r with
      | Some (caps, rest) => Some (m :: caps, rest)
      | None => Strptime.match_groups (l :: gs) s
      end
  | None => Strptime.match_groups (l :: gs) s
  end.
Proof. reflexivity. Qed.

Ltac step_alt :=
  rewrite match_groups_alt; cbn [Strptime.match_atoms];
  rewrite ?DigitFacts.in_atom_digit by assumption;
  cbn [fst snd Strptime.D Strptime.C Strptime.R];
  change (digit_val "0") with 0; change (digit_val "1") with 1;
  change (digit_val "2") with 2; change (digit_val "3") with 3;
  change (digit_val "5") with 5; change (digit_val "6") with 6;
  change (digit_val "9") with 9;
  split_leb.

Lemma digits2 (n : Z) :
  0 <= n < 100 ->
  exists a b, 0 <= a <= 9 /\ 0 <= b <= 9 /\ n = 10 * a + b /\
    zfill 2 n = String (digit_char a) (String (digit_char b) "").
Proof.
  intros Hn. exists (n / 10 mod 10), (n mod 10).
  repeat split; try reflexivity; Z.to_euclidean_division_equations; lia.
Qed.

Lemma digits3 (n : Z) :
  0 <= n < 1000 ->
  exists a b c, 0 <= a <= 9 /\ 0 <= b <= 9 /\ 0 <= c <= 9 /\
    n = 100 * a + 10 * b + c /\
    zfill 3 n = String (digit_char a) (String (digit_char b) (String (digit_char c) "")).
Proof.
  intros Hn. exists (n / 10 / 10 mod 10), (n / 10 mod 10), (n mod 10).
  repeat split; try reflexivity; Z.to_euclidean_division_equations; lia.
Qed.

Lemma digits4 (n : Z) :
  0 <= n < 10000 ->
  exists a b c d, 0 <= a <= 9 /\ 0 <= b <= 9 /\ 0 <= c <= 9 /\ 0 <= d <= 9 /\
    n = 1000 * a + 100 * b + 10 * c + d /\
    zfill 4 n = String (digit_char a) (String (digit_char b)
                  (String (digit_char c) (String (digit_char d) ""))).
Proof.
  intros Hn.
  exists (n / 10 / 10 / 10 mod 10), (n / 10 / 10 mod 10), (n / 10 mod 10), (n mod 10).
  repeat split; try reflexivity; Z.to_euclidean_division_equations; lia.
Qed.

Section Directives.

Variable gs : list (list (list Strptime.atom)).
Variables (r rest : string) (caps : list string).
Hypothesis Hcont : Strptime.match_groups gs r = Some (caps, rest).

Lemma match_Y (n : Z) :
  0 <= n <= 9999 ->
  Strptime.match_groups (Strptime.dir_Y :: gs) (zfill 4 n +:+ r)
  = Some (zfill 4 n :: caps, rest).
Proof.
  intros Hn. destruct (digits4 n ltac:(lia)) as (a & b & c & d & ? & ? & ? & ? & _ & ->).
  simpl String.append. unfold Strptime.dir_Y.
  step_alt. rewrite Hcont. reflexivity.
Qed.

Lemma match_j (n : Z) :
  1 <= n <= 366 ->
  Strptime.match_groups (Strptime.dir_j :: gs) (zfill 3 n +:+ r)
  = Some (zfill 3 n :: caps, rest).
Proof.
  intros Hn. destruct (digits3 n ltac:(lia)) as (a & b & c & ? & ? & ? & Hv & ->).
  simpl String.append. unfold Strptime.dir_j.
  repeat (step_alt; rewrite ?Hcont; try reflexivity).
Qed.

Lemma match_H (n : Z) :
  0 <= n <= 23 ->
  Strptime.match_groups (Strptime.dir_H :: gs) (zfill 2 n +:+ r)
  = Some (zfill 2 n :: caps, rest).
Proof.
  intros Hn. destruct (digits2 n ltac:(lia)) as (a & b & ? & ? & Hv & ->).
  simpl String.append. unfold Strptime.dir_H.
  repeat (step_alt; rewrite ?Hcont; try reflexivity).
Qed.

Lemma match_M (n : Z) :
  0 <= n <= 59 ->
  Strptime.match_groups (Strptime.dir_M :: gs) (zfill 2 n +:+ r)
  = Some (zfill 2 n :: caps, rest).
Proof.
  intros Hn. destruct (digits2 n ltac:(lia)) as (a & b & ? & ? & Hv & ->).
  simpl String.append. unfold Strptime.dir_M.
  repeat (step_alt; rewrite ?Hcont; try reflexivity).
Qed.

Lemma match_S (n : Z) :
  0 <= n <= 61 ->
  Strptime.match_groups (Strptime.dir_S :: gs) (zfill 2 n +:+ r)
  = Some (zfill 2 n :: caps, rest).
Proof.
  intros Hn. destruct (digits2 n ltac:(lia)) as (a & b & ? & ? & Hv & ->).
  simpl String.append. unfold Strptime.dir_S.
  repeat (step_alt; rewrite ?Hcont; try reflexivity).
Qed.

End Directives.

Lemma match_stamp (Y J H M S : Z) :
  0 <= Y <= 9999 -> 1 <= J <= 366 -> 0 <= H <= 23 -> 0 <= M <= 59 -> 0 <= S <= 61 ->
  Strptime.match_groups
    [Strptime.dir_Y; Strptime.dir_j; Strptime.dir_H; Strptime.dir_M; Strptime.dir_S]
    (stamp Y J H M S)
  = Some ([zfill 4 Y; zfill 3 J; zfill 2 H; zfill 2 M; zfill 2 S], "").
Proof.
  intros HY HJ HH HM HS. unfold stamp.
  assert (H5 : Strptime.match_groups [Strptime.dir_S] (zfill 2 S +:+ "")
               = Some ([zfill 2 S], "")).
  { apply (match_S [] "" "" []); [reflexivity | exact HS]. }
  rewrite StrFacts.append_nil_r in H5.
  pose proof (match_M _ _ _ _ H5 M HM) as H4.
  pose proof (match_H _ _ _ _ H4 H HH) as H3.
  pose proof (match_j _ _ _ _ H3 J HJ) as H2.
  exact (match_Y _ _ _ _ H2 Y HY).
Qed.

Lemma strptime_stamp (Y J H M S : Z) :
  1 <= Y <= 9999 -> 1 <= J <= 366 -> 0 <= H <= 23 -> 0 <= M <= 59 -> 0 <= S <= 59 ->
  Strptime.strptime (stamp Y J H M S) =
  if DT.MAXORDINAL <? DT.days_before_year Y + J then Err ValueError
  else Ok {| ordinal := DT.days_before_year Y + J;
             hour := H; minute := M; second := S; microsecond := 0 |}.
Proof.
  intros HY HJ HH HM HS. unfold Strptime.strptime.
  rewrite match_stamp by lia.
  cbn [is_empty negb].
  rewrite !DigitFacts.int_of_digits_zfill by (cbn; lia).
  destruct (Z.ltb_spec Y 1); [lia|]. cbn [orb].
  destruct (DT.MAXORDINAL <? _); [reflexivity|].
  destruct (Z.ltb_spec 59 S); [lia|]. reflexivity.
Qed.

End StrptimeFacts.

Module StrptimeWidth.
Import Str.

Lemma match_atoms_length p :
  forall s m r,
    Strptime.match_atoms p s = Some (m, r) ->
    s = m +:+ r /\ String.length m = List.length p.
Proof.
  induction p as [|a p IH]; intros s m r; cbn [Strptime.match_atoms].
  - intros [= <- <-]. split; reflexivity.
  - destruct s as [|c t]; [discriminate|].
    destruct (Strptime.in_atom a c); [|discriminate].
    destruct (Strptime.match_atoms p t) as [[m' r']|] eqn:E; [|discriminate].
    intros [= <- <-]. destruct (IH _ _ _ E) as [-> Hl].
    split; [reflexivity | cbn; now rewrite Hl].
Qed.

(** What a successful match consumed: one alternative of each group. *)
Lemma match_groups_length gs :
  forall s caps r,
    Strptime.match_groups gs s = Some (caps, r) ->
    String.length s
    = (list_sum (map String.length caps) + String.length r)%nat /\
    Forall2 (fun cap g => In (String.length cap) (map (@List.length _) g)) caps gs.
Proof.
  induction gs as [|g gs IH]; intros s caps r.
  - cbn. intros [= <- <-]. split; [reflexivity | constructor].
  - induction g as [|a l IHl].
    + discriminate.
    + rewrite StrptimeFacts.match_groups_alt.
      assert (Hnext : Strptime.match_groups (l :: gs) s = Some (caps, r) ->
                      String.length s
                      = (list_sum (map String.length caps) + String.length r)%nat /\
                      Forall2 (fun cap g => In (String.length cap) (map (@List.length _) g))
                        caps ((a :: l) :: gs)).
      { intros H. destruct (IHl H) as [H1 H2]. split; [exact H1|].
        inversion H2; subst. constructor; [now right | assumption]. }
      destruct (Strptime.match_atoms a s) as [[m r0]|] eqn:Ea; [|exact Hnext].
      destruct (Strptime.match_groups gs r0) as [[caps0 rest0]|] eqn:Eg; [|exact Hnext].
      intros [= <- <-].
      destruct (match_atoms_length _ _ _ _ Ea) as [-> Hm].
      destruct (IH _ _ _ Eg) as [Hl HF].
      split.
      * rewrite StrFacts.length_append, Hl. cbn. apply Nat.add_assoc.
      * constructor; [left; now rewrite Hm | exact HF].
Qed.

(** Only strings of 8 to 13 characters parse as a time stamp. *)
Lemma strptime_length (s : string) (d : datetime) :
  Strptime.strptime s = Ok d -> (8 <= String.length s <= 13)%nat.
Proof.
  unfold Strptime.strptime.
  destruct (Strptime.match_groups _ s) as [[caps rest]|] eqn:E; [|discriminate].
  destruct rest; [|discriminate]. intros _.
  destruct (match_groups_length _ _ _ _ E) as [Hl HF]. rewrite Hl. clear E Hl.
  repeat match goal with
         | H : Forall2 _ _ (_ :: _) |- _ => inversion H; subst; clear H
         | H : Forall2 _ _ [] |- _ => inversion H; subst; clear H
         end.
  cbn in *. lia.
Qed.

End StrptimeWidth.

(** * The time stamp of a file name *)

Module SliceFacts.
Import Str.

Lemma substring_prefix (a b : string) :
  String.substring 0 (String.length a) (a +:+ b) = a.
Proof.
  induction a as [|c a IH]; simpl.
  - destruct b; reflexivity.
  - now rewrite IH.
Qed.

Lemma length_substring (s : string) :
  forall n m, (n + m <= String.length s)%nat ->
              String.length (String.substring n m s) = m.
Proof.
  induction s as [|c s IH]; intros n m H; simpl in *.
  - assert (n = 0%nat /\ m = 0%nat) as [-> ->] by lia. reflexivity.
  - destruct n as [|n].
    + destruct m as [|m]; [reflexivity|]. simpl. rewrite IH by lia. reflexivity.
    + apply IH. lia.
Qed.

(** [s[1:-1]] drops the first and the last character. *)
Lemma slice_strip (c c' : ascii) (mid : string) :
  slice 1 (-1) (String c (mid +:+ String c' "")) = mid.
Proof.
  unfold slice, norm_index. cbn [String.length].
  rewrite StrFacts.length_append. cbn [String.length].
  destruct (Z.ltb_spec 1 0); [lia|]. destruct (Z.ltb_spec (-1) 0); [|lia].
  rewrite Z.min_r, Z.max_r by lia.
  destruct (Z.ltb_spec 1 (Z.of_nat (S (String.length mid + 1)) + -1)).
  - replace (Z.to_nat 1) with 1%nat by lia.
    replace (Z.to_nat _) with (String.length mid) by lia.
    cbn [String.substring]. apply substring_prefix.
  - destruct mid; [reflexivity | cbn [String.length] in *; lia].
Qed.

Lemma slice_strip_length (s : string) :
  String.length (slice 1 (-1) s) = (String.length s - 2)%nat.
Proof.
  unfold slice, norm_index.
  destruct (Z.ltb_spec 1 0); [lia|]. destruct (Z.ltb_spec (-1) 0); [|lia].
  destruct (Z.ltb_spec (Z.min (Z.of_nat (String.length s)) 1)
              (Z.max 0 (Z.of_nat (String.length s) + -1))).
  - rewrite length_substring by lia. lia.
  - cbn. lia.
Qed.

End SliceFacts.

Lemma stamp_no_underscore (Y J H M S : Z) : Str.contains "_" (stamp Y J H M S) = false.
Proof.
  unfold stamp. rewrite !StrFacts.contains_append.
  rewrite !DigitFacts.zfill_contains; [reflexivity|..];
    intros d Hd E; apply (f_equal Str.digit_val) in E;
    rewrite DigitFacts.digit_val_char in E by exact Hd; vm_compute in E; lia.
Qed.

(** The fields of a name whose first three fields hold no underscore. *)
Lemma split_three_fields (f0 f1 f2 rest : string) :
  Str.contains "_" f0 = false -> Str.contains "_" f1 = false ->
  Str.contains "_" f2 = false ->
  Str.split "_" (f0 +:+ "_" +:+ f1 +:+ "_" +:+ f2 +:+ "_" +:+ rest)
  = f0 :: f1 :: f2 :: Str.split "_" rest.
Proof.
  intros H0 H1 H2.
  change (f0 +:+ "_" +:+ f1 +:+ "_" +:+ f2 +:+ "_" +:+ rest)
    with (f0 +:+ String "_" (f1 +:+ String "_" (f2 +:+ String "_" rest))).
  rewrite !StrFacts.split_append_sep.
  rewrite !StrFacts.split_no_sep by assumption. reflexivity.
Qed.

Lemma split_head_field (x tail : string) :
  Str.contains "_" x = false ->
  tail = "" \/ (exists rest, tail = String "_" rest) ->
  Str.split "_" (x +:+ tail) !! 0%nat = Some x.
Proof.
  intros Hx [->|[rest ->]].
  - rewrite StrFacts.append_nil_r, StrFacts.split_no_sep by exact Hx. reflexivity.
  - rewrite StrFacts.split_append_sep, StrFacts.split_no_sep by exact Hx. reflexivity.
Qed.

Lemma strptime_error (s : string) (e : error) :
  Strptime.strptime s = Err e -> e = ValueError.
Proof.
  unfold Strptime.strptime.
  repeat (match goal with |- context [match ?x with _ => _ end] => destruct x end;
          try discriminate; try (intros [= <-]; reflexivity)).
Qed.

(** X6 — the time stamp of a conventional name. In a name whose first three
    underscore-separated fields are followed by a field made of one marker
    character, the thirteen digits [YYYYDDDHHMMSS] and one more character,
    [file_time] reads exactly that year, day of the year and time of day;
    when the day exists in that year, the parsed datetime has that year and
    that day of the year. *)
Theorem file_time_conventional (f0 f1 f2 : string) (c c' : ascii) (tail : string)
    (Y J H M S : Z) :
  Str.contains "_" f0 = false -> Str.contains "_" f1 = false ->
  Str.contains "_" f2 = false -> c <> "_"%char -> c' <> "_"%char ->
  tail = "" \/ (exists rest, tail = String "_" rest) ->
  1 <= Y <= 9999 -> 1 <= J <= 366 -> 0 <= H <= 23 -> 0 <= M <= 59 -> 0 <= S <= 59 ->
  DT.days_before_year Y + J <= DT.MAXORDINAL ->
  let fn := f0 +:+ "_" +:+ f1 +:+ "_" +:+ f2 +:+ "_" +:+
            String c (stamp Y J H M S +:+ String c' tail) in
  let t := {| ordinal := DT.days_before_year Y + J;
              hour := H; minute := M; second := S; microsecond := 0 |} in
  file_time fn = Ok t /\ DT.valid t /\
  (J <= (if DT.is_leap Y then 366 else 365) -> DT.year t = Y /\ DT.yday t = J).
Proof.
  intros H0 H1 H2 Hc Hc' Htail HY HJ HH HM HS Hmax fn t.
  assert (Hpos : 0 <= DT.days_before_year Y).
  { unfold DT.days_before_year. cbv zeta.
    Z.to_euclidean_division_equations; lia. }
  split; [|split].
  - unfold file_time. subst fn.
    rewrite split_three_fields by assumption.
    change (?a :: ?b :: ?c :: ?l) with ([a; b; c] ++ l).
    rewrite lookup_app_r by (cbn; lia). cbn [List.length Nat.sub].
    change (String c (stamp Y J H M S +:+ String c' tail))
      with (String c (stamp Y J H M S +:+ (String c' "" +:+ tail))).
    rewrite <- StrFacts.append_assoc.
    change (String c ((stamp Y J H M S +:+ String c' "") +:+ tail))
      with (String c (stamp Y J H M S +:+ String c' "") +:+ tail).
    rewrite split_head_field; [|
      cbn [Str.contains]; rewrite StrFacts.contains_append, stamp_no_underscore;
      cbn [Str.contains];
      apply Ascii.eqb_neq in Hc; apply Ascii.eqb_neq in Hc'; now rewrite Hc, Hc'
      | exact Htail].
    rewrite SliceFacts.slice_strip, StrptimeFacts.strptime_stamp by assumption.
    destruct (Z.ltb_spec DT.MAXORDINAL (DT.days_before_year Y + J)); [lia|].
    reflexivity.
  - unfold DT.valid. subst t. cbn. lia.
  - intros Hday. subst t. unfold DT.yday, DT.year. cbn [ordinal].
    assert (Hy : DT.ord2year (DT.days_before_year Y + J) = Y).
    { apply ord2year_unique; [|lia].
      pose proof (days_in_year Y). destruct (DT.is_leap Y); lia. }
    rewrite Hy. split; [reflexivity | lia].
Qed.

Lemma file_time_conventional_witness :
  file_time Scenario.in_window_name = Ok (Scenario.at_2020_001 5 30) /\
  DT.year (Scenario.at_2020_001 5 30) = 2020 /\
  DT.yday (Scenario.at_2020_001 5 30) = 1.
Proof.
  destruct (file_time_conventional "OR" "P1" "G16" "s" "0"
              "_e20200010539000_c20200010539100.nc" 2020 1 5 30 0)
    as (Hparse & _ & Hyear); try reflexivity; try lia; try discriminate.
  - right. eexists. reflexivity.
  - split; [exact Hparse | apply Hyear; vm_compute; discriminate].
Defined.

(** X7 — malformed names. For a name the filter does not refuse,
    [should_download] raises before any lookup: [IndexError] when the name
    has fewer than four underscore-separated fields, and [ValueError] when
    its fourth field has fewer than 10 or more than 15 characters (a stamp
    of more than 13 characters, such as 14 digits, never parses). *)
Theorem malformed_name_raises fs start_time end_time overwrite fn_filter
    aws_file local_file l :
  filter_rejects fn_filter (basename aws_file) = false ->
  let fields := Str.split "_" (basename aws_file) in
  ((List.length fields < 4)%nat ->
   should_download fs start_time end_time overwrite fn_filter aws_file local_file l
   = (Raised IndexError, l, [])) /\
  (forall part,
     fields !! 3%nat = Some part ->
     (String.length part < 10 \/ 15 < String.length part)%nat ->
     should_download fs start_time end_time overwrite fn_filter aws_file local_file l
     = (Raised ValueError, l, [])).
Proof.
  intros Hf fields. split.
  - intros Hlen. rewrite should_download_cases. cbv zeta. rewrite Hf.
    unfold file_time. fold fields.
    rewrite (lookup_ge_None_2 fields 3) by lia. reflexivity.
  - intros part Hpart Hlen. rewrite should_download_cases. cbv zeta. rewrite Hf.
    unfold file_time. fold fields. rewrite Hpart.
    destruct (Strptime.strptime (Str.slice 1 (-1) part)) as [d|e] eqn:E.
    + apply StrptimeWidth.strptime_length in E.
      rewrite SliceFacts.slice_strip_length in E. lia.
    + now rewrite (strptime_error _ _ E).
Qed.

Lemma malformed_name_raises_witness :
  should_download Scenario.store Scenario.window_start Scenario.window_end false None
    "s3://noaa-goes16/P1/2020/001/05/OR_P1_G16_s202000105300001_e.nc" "x" empty_fs
  = (Raised ValueError, empty_fs, []).
Proof.
  destruct (malformed_name_raises Scenario.store Scenario.window_start
              Scenario.window_end false None
              "s3://noaa-goes16/P1/2020/001/05/OR_P1_G16_s202000105300001_e.nc" "x"
              empty_fs eq_refl) as [_ Hv].
  apply (Hv "s202000105300001"); [reflexivity | right; cbn; lia].
Defined.

(** * The layout of the mirror *)

Module PathFacts.
Import Str.

Lemma plain_spec (s : string) :
  plain s = true <-> is_empty s = false /\ contains "/" s = false.
Proof.
  unfold plain. rewrite andb_true_iff, !negb_true_iff. reflexivity.
Qed.

Lemma startswith_no_sep (b : string) : contains "/" b = false -> startswith_sep b = false.
Proof.
  destruct b as [|c b]; [reflexivity|]. cbn. intros H.
  now apply orb_false_iff in H as [-> _].
Qed.

Lemma endswith_no_sep (b : string) : contains "/" b = false -> endswith_sep b = false.
Proof.
  induction b as [|c b IH]; [reflexivity|]. cbn [contains endswith_sep].
  intros H. apply orb_false_iff in H as [Hc Hb].
  destruct b; [exact Hc | apply IH, Hb].
Qed.

Lemma endswith_append (a b : string) :
  is_empty b = false -> endswith_sep (a +:+ b) = endswith_sep b.
Proof.
  intros Hb. induction a as [|c a IH]; [reflexivity|].
  simpl. destruct (a +:+ b) eqn:E; [|exact IH].
  destruct a, b; simpl in E; discriminate.
Qed.

Lemma is_empty_append (a b : string) : is_empty b = false -> is_empty (a +:+ b) = false.
Proof. intros Hb. destruct a; [exact Hb | reflexivity]. Qed.

Lemma path_join2_prefix (a b : string) :
  startswith_sep b = false -> path_join2 a b = root_prefix a +:+ b.
Proof.
  intros Hb. unfold path_join2, root_prefix. rewrite Hb.
  destruct (is_empty a || endswith_sep a); [reflexivity|].
  now rewrite StrFacts.append_assoc.
Qed.

Lemma root_prefix_plain (a c : string) :
  plain c = true -> root_prefix (a +:+ c) = a +:+ c +:+ "/".
Proof.
  intros Hc. apply plain_spec in Hc as [He Hs]. unfold root_prefix.
  rewrite is_empty_append, endswith_append, endswith_no_sep by assumption.
  cbn [orb]. now rewrite StrFacts.append_assoc.
Qed.

(** Joining plain segments under a directory puts them, separated, after
    the directory. *)
Lemma os_path_join_plain (cs : list string) :
  forall (a last : string),
    Forall (fun c => plain c = true) cs -> contains "/" last = false ->
    os_path_join a (cs ++ [last]) = root_prefix a +:+ join "/" (cs ++ [last]).
Proof.
  unfold os_path_join.
  induction cs as [|c cs IH]; intros a last Hcs Hlast.
  - cbn. apply path_join2_prefix, startswith_no_sep, Hlast.
  - inversion Hcs as [|? ? Hc Hcs']; subst. cbn [app fold_left].
    destruct (proj1 (plain_spec c) Hc) as [_ Hsep].
    rewrite path_join2_prefix by (apply startswith_no_sep, Hsep).
    rewrite IH by assumption. rewrite root_prefix_plain by exact Hc.
    rewrite !StrFacts.append_assoc.
    destruct cs; reflexivity.
Qed.

Lemma sat_dir_plain (sat : string) : contains "/" sat = false -> plain (sat_dir sat) = true.
Proof. intros H. apply plain_spec. split; [reflexivity|]. cbn. exact H. Qed.

Lemma zfill_plain (w : nat) (n : Z) : plain (zfill (S w) n) = true.
Proof.
  apply plain_spec. split; [apply DigitFacts.zfill_not_empty|].
  apply DigitFacts.zfill_contains. intros d Hd E.
  apply (f_equal digit_val) in E.
  rewrite DigitFacts.digit_val_char in E by exact Hd. vm_compute in E. lia.
Qed.

End PathFacts.

Section Layout.

Variable mirror_dir : string.

Lemma bucket_segments_plain (product sat : string) (h : datetime) :
  Str.contains "/" sat = false -> plain product = true ->
  Forall (fun c => plain c = true)
    [sat_dir sat; product; DT.strftime_Y h; DT.strftime_j h; DT.strftime_H h].
Proof.
  intros Hs Hp. repeat constructor;
    try exact Hp; try (apply PathFacts.sat_dir_plain, Hs);
    apply PathFacts.zfill_plain.
Qed.

Lemma local_file_layout (product sat : string) (h : datetime) (path : string) :
  Str.contains "/" sat = false -> plain product = true ->
  local_file_of (local_dir_of mirror_dir product sat h) path
  = root_prefix mirror_dir +:+ object_key product sat h path.
Proof.
  intros Hs Hp. unfold local_file_of, local_dir_of, Str.os_path_join.
  rewrite <- fold_left_app.
  apply (PathFacts.os_path_join_plain
           [sat_dir sat; product; DT.strftime_Y h; DT.strftime_j h; DT.strftime_H h]).
  - apply bucket_segments_plain; assumption.
  - apply basename_no_slash.
Qed.

Lemma aws_file_layout (product sat : string) (h : datetime) (path : string) :
  aws_file_of (aws_dir_of product sat h) path = "s3://" +:+ object_key product sat h path.
Proof.
  unfold aws_file_of, aws_dir_of, object_key. cbn [Str.join].
  rewrite !StrFacts.append_assoc. reflexivity.
Qed.

End Layout.

Lemma plain_no_slash (s : string) : plain s = true -> Str.contains "/" s = false.
Proof. intros H. now apply PathFacts.plain_spec in H. Qed.

Lemma object_key_segments (product sat : string) (h : datetime) (path : string) :
  Str.contains "/" sat = false -> plain product = true ->
  Str.split "/" (object_key product sat h path)
  = [sat_dir sat; product; DT.strftime_Y h; DT.strftime_j h; DT.strftime_H h;
     basename path].
Proof.
  intros Hs Hp. unfold object_key. apply StrFacts.split_join; [discriminate|].
  pose proof (bucket_segments_plain product sat h Hs Hp) as Hseg.
  repeat match goal with
         | H : Forall _ (_ :: _) |- _ => inversion H; subst; clear H
         end.
  repeat constructor; try (apply plain_no_slash; assumption).
  apply basename_no_slash.
Qed.

Lemma list6_inj {A} (a b c d e f a' b' c' d' e' f' : A) :
  [a; b; c; d; e; f] = [a'; b'; c'; d'; e'; f'] ->
  a = a' /\ b = b' /\ c = c' /\ d = d' /\ e = e' /\ f = f'.
Proof. intros [= -> -> -> -> -> ->]. repeat split. Qed.

(** The strings of a bucket name identify its hour. *)
Lemma bucket_name_inj (h h' : datetime) :
  DT.valid h -> aligned h -> DT.valid h' -> aligned h' ->
  DT.strftime_Y h = DT.strftime_Y h' -> DT.strftime_j h = DT.strftime_j h' ->
  DT.strftime_H h = DT.strftime_H h' -> h = h'.
Proof.
  intros Hv Ha Hv' Ha' HY Hj HH.
  destruct (year_yday_range h Hv) as [Hy1 Hd1].
  destruct (year_yday_range h' Hv') as [Hy2 Hd2].
  apply DigitFacts.zfill_inj in HY; [|cbn; lia..].
  apply DigitFacts.zfill_inj in Hj; [|cbn; lia..].
  destruct Ha as (Hh & Hm & Hs & Hu). destruct Ha' as (Hh' & Hm' & Hs' & Hu').
  apply DigitFacts.zfill_inj in HH; [|cbn; lia..].
  unfold DT.yday in Hj. rewrite HY in Hj.
  destruct h, h'. cbn in *. subst. f_equal. lia.
Qed.

(** X8 — the local path mirrors the remote key. When the satellite holds
    no [/] and the product is a non-empty name without [/], the remote path
    and the local path of a listed object are one key, [s3://] before it on
    the remote side and [mirror_dir] before it on the local side, and the
    segments of the key are the satellite directory, the product, the year,
    the day of the year, the hour and the file name. *)
Theorem local_path_mirrors_key mirror_dir product sat h path :
  Str.contains "/" sat = false -> plain product = true ->
  let key := object_key product sat h path in
  aws_file_of (aws_dir_of product sat h) path = "s3://" +:+ key /\
  local_file_of (local_dir_of mirror_dir product sat h) path
  = root_prefix mirror_dir +:+ key /\
  Str.split "/" key
  = [sat_dir sat; product; DT.strftime_Y h; DT.strftime_j h; DT.strftime_H h;
     basename path].
Proof.
  intros Hs Hp key. split; [apply aws_file_layout|].
  split; [apply local_file_layout; assumption|].
  apply object_key_segments; assumption.
Qed.

Lemma local_path_mirrors_key_witness :
  let h := Scenario.at_2020_001 5 0 in
  let path := "noaa-goes16/P1/2020/001/05/" +:+ Scenario.in_window_name in
  aws_file_of (aws_dir_of "P1" "16" h) path
  = "s3://" +:+ object_key "P1" "16" h path /\
  local_file_of (local_dir_of "/data" "P1" "16" h) path
  = "/data/noaa-goes16/P1/2020/001/05/" +:+ Scenario.in_window_name.
Proof.
  intros h path.
  destruct (local_path_mirrors_key "/data" "P1" "16" h path eq_refl eq_refl)
    as (Ha & Hl & _).
  split; [exact Ha|]. rewrite Hl. reflexivity.
Defined.

(** X9 — no collisions. For a fixed [mirror_dir], satellites without [/]
    and non-empty products without [/], two listed objects with the same
    local path have the same satellite, product, hour bucket and file name:
    objects of different buckets never share a local path. *)
Theorem local_paths_never_collide mirror_dir product sat h path product' sat' h' path' :
  Str.contains "/" sat = false -> plain product = true ->
  Str.contains "/" sat' = false -> plain product' = true ->
  DT.valid h -> aligned h -> DT.valid h' -> aligned h' ->
  local_file_of (local_dir_of mirror_dir product sat h) path
  = local_file_of (local_dir_of mirror_dir product' sat' h') path' ->
  sat = sat' /\ product = product' /\ h = h' /\ basename path = basename path'.
Proof.
  intros Hs Hp Hs' Hp' Hv Ha Hv' Ha' E.
  rewrite !local_file_layout in E by assumption.
  apply StrFacts.append_inv_head in E.
  apply (f_equal (Str.split "/")) in E.
  rewrite !object_key_segments in E by assumption.
  apply list6_inj in E as (E1 & E2 & E3 & E4 & E5 & E6).
  apply StrFacts.append_inv_head in E1.
  repeat split; try assumption.
  apply bucket_name_inj; assumption.
Qed.

Lemma local_paths_never_collide_witness :
  basename ("noaa-goes16/P1/2020/001/05/" +:+ Scenario.in_window_name)
  = basename Scenario.in_window_name.
Proof.
  assert (Hv : DT.valid (Scenario.at_2020_001 5 0)) by (apply validb_valid; reflexivity).
  assert (Ha : aligned (Scenario.at_2020_001 5 0))
    by (repeat split; (reflexivity || discriminate)).
  exact (proj2 (proj2 (proj2
           (local_paths_never_collide "/data" "P1" "16" (Scenario.at_2020_001 5 0)
              ("noaa-goes16/P1/2020/001/05/" +:+ Scenario.in_window_name)
              "P1" "16" (Scenario.at_2020_001 5 0) Scenario.in_window_name
              eq_refl eq_refl eq_refl eq_refl Hv Ha Hv Ha eq_refl)))).
Defined.

(** X10 — an absolute product escapes the mirror. A product that starts
    with [/] makes [os.path.join] drop what precedes it: the local directory
    of a bucket then depends neither on [mirror_dir] nor on the satellite, so
    the files of different satellites share one directory outside the
    mirror. *)
Theorem absolute_product_escapes_mirror mirror_dir mirror_dir' product sat sat' h :
  Str.startswith_sep product = true ->
  local_dir_of mirror_dir product sat h = local_dir_of mirror_dir' product sat' h.
Proof.
  intros Hp. unfold local_dir_of, Str.os_path_join. cbn [fold_left].
  assert (Hdrop : forall a, Str.path_join2 a product = product).
  { intros a. unfold Str.path_join2. now rewrite Hp. }
  now rewrite !Hdrop.
Qed.

Lemma absolute_product_escapes_mirror_witness :
  local_dir_of "/data" "/x" "16" (Scenario.at_2020_001 5 0) = "/x/2020/001/05" /\
  local_dir_of "/data" "/x" "17" (Scenario.at_2020_001 5 0) = "/x/2020/001/05".
Proof.
  rewrite (absolute_product_escapes_mirror "/data" "/data" "/x" "17" "16"
             (Scenario.at_2020_001 5 0) eq_refl).
  split; reflexivity.
Defined.

(** * Reorganising a directory: [organize_files] *)

Section Organize.

Variable to_dir : string.

Lemma organize_dir_skip test root fn rest :
  StrMore.endswith fn ".nc" = false ->
  organize_dir to_dir test root (fn :: rest) = organize_dir to_dir test root rest.
Proof. intros H. cbn [organize_dir]. now rewrite H. Qed.

Lemma organize_dir_candidate test root fn rest :
  StrMore.endswith fn ".nc" = true ->
  organize_dir to_dir test root (fn :: rest) =
  bind (lift (target_of to_dir fn)) (fun target =>
    if test then
      bind (print ("From: " +:+ Str.os_path_join root [fn])) (fun _ =>
      bind (print ("To: " +:+ snd target)) (fun _ => ret Return))
    else
      bind (os_makedirs (fst target)) (fun _ =>
      bind (os_rename (Str.os_path_join root [fn]) (snd target)) (fun _ =>
      organize_dir to_dir test root rest))).
Proof. intros H. cbn [organize_dir]. now rewrite H. Qed.

(** Names that do not end in [.nc] play no part. *)
Lemma organize_dir_filter test root names :
  organize_dir to_dir test root names =
  organize_dir to_dir test root
    (List.filter (fun fn => StrMore.endswith fn ".nc") names).
Proof.
  induction names as [|fn rest IH]; [reflexivity|].
  cbn [List.filter].
  destruct (StrMore.endswith fn ".nc") eqn:E.
  - rewrite !organize_dir_candidate by exact E. now rewrite IH.
  - rewrite organize_dir_skip by exact E. exact IH.
Qed.

(** The dry run of one directory: nothing for a directory without
    candidates, else the report of the first candidate and a return. *)
Lemma organize_dir_dry root names l :
  organize_dir to_dir true root names l =
  match List.filter (fun fn => StrMore.endswith fn ".nc") names with
  | [] => (Done Continue, l, [])
  | fn :: _ =>
      match target_of to_dir fn with
      | Ok target =>
          (Done Return, l,
           [EvPrint ("From: " +:+ Str.os_path_join root [fn]);
            EvPrint ("To: " +:+ snd target)])
      | Err e => (Raised e, l, [])
      end
  end.
Proof.
  induction names as [|fn rest IH]; [reflexivity|].
  cbn [List.filter]. destruct (StrMore.endswith fn ".nc") eqn:E.
  - rewrite organize_dir_candidate by exact E.
    unfold bind, print, emit, lift, ret, raise.
    destruct (target_of to_dir fn); reflexivity.
  - rewrite organize_dir_skip by exact E. exact IH.
Qed.

End Organize.

(** X11 — the dry run of [organize_files] (its default mode). It changes
    nothing in the file system; it prints the planned move of the first file
    whose name ends in [.nc], in walk order, and returns at once, so later
    files are neither reported nor checked; without such a file it prints
    nothing; when the name of that first file has no fourth field it raises
    [IndexError]. *)
Theorem organize_dry_run os_walk from_dir to_dir l :
  let run := organize_files os_walk from_dir to_dir true l in
  fs_of run = l /\
  match candidates (os_walk from_dir) with
  | [] => outcome_of run = Done tt /\ trace_of run = []
  | (root, fn) :: _ =>
      match target_of to_dir fn with
      | Ok target =>
          outcome_of run = Done tt /\
          trace_of run = [EvPrint ("From: " +:+ Str.os_path_join root [fn]);
                          EvPrint ("To: " +:+ snd target)]
      | Err e => outcome_of run = Raised e /\ trace_of run = []
      end
  end.
Proof.
  cbv zeta. unfold organize_files. generalize (os_walk from_dir) as walk.
  induction walk as [|[root names] more IH].
  - cbn. auto.
  - cbn [organize_walk candidates flat_map fst snd]. rewrite bind_run.
    rewrite organize_dir_dry.
    destruct (List.filter _ names) as [|fn rest] eqn:E.
    + cbn [map app outcome_of fs_of trace_of fst snd].
      destruct IH as [IH1 IH2]. split; [exact IH1|].
      fold (candidates more).
      destruct (candidates more) as [|[r f] cs]; [exact IH2|].
      destruct (target_of to_dir f); exact IH2.
    + cbn [map app fst snd].
      destruct (target_of to_dir fn); cbn; auto.
Qed.

(** X12 — files that do not end in [.nc] are ignored by [organize_files],
    in both modes: the run is the run on the walk with those names left
    out. They are never moved, reported or parsed. *)
Theorem organize_ignores_other_files os_walk from_dir to_dir test l :
  organize_files os_walk from_dir to_dir test l =
  organize_files
    (fun d => map (fun entry =>
                     (fst entry,
                      List.filter (fun fn => StrMore.endswith fn ".nc") (snd entry)))
                  (os_walk d))
    from_dir to_dir test l.
Proof.
  unfold organize_files. generalize (os_walk from_dir) as walk.
  intros walk. revert l.
  induction walk as [|[root names] more IH]; intros l; [reflexivity|].
  cbn [organize_walk map fst snd]. rewrite !bind_run.
  rewrite <- organize_dir_filter.
  destruct (organize_dir to_dir test root names l) as [[[[|]|e|] l1] t1];
    cbn [outcome_of fs_of trace_of fst snd]; try reflexivity.
  now rewrite IH.
Qed.

Module SliceMore.
Import Str.






End SliceMore.




(** * Synchronisation *)

Section Sync.

Variable fs : remote_store.
Variable mirror_dir : string.
Hypothesis Hcons : consistent_store fs.

Lemma sync_le_refl l : sync_le fs mirror_dir l l.
Proof. intros a b _ H. exact H. Qed.

Lemma sync_le_trans l1 l2 l3 :
  sync_le fs mirror_dir l1 l2 -> sync_le fs mirror_dir l2 l3 -> sync_le fs mirror_dir l1 l3.
Proof. intros H12 H23 a b Hm H. apply H23, H12; assumption. Qed.

Lemma sync_le_same_files l l' : files l' = files l -> sync_le fs mirror_dir l l'.
Proof. intros E a b _ (n & Hn & Hi). exists n. now rewrite E. Qed.

Lemma mirrored_same_local a b a' b' :
  mirrored mirror_dir a b -> mirrored mirror_dir a' b' -> b = b' -> a = a'.
Proof.
  intros (k & -> & ->) (k' & -> & ->) E.
  apply StrFacts.append_inv_head in E. now subst.
Qed.

(** A transfer keeps every mirrored object in sync and, when it succeeds,
    brings its own object in sync. *)
Lemma fs_get_sync aws_file local_file l :
  mirrored mirror_dir aws_file local_file ->
  sync_le fs mirror_dir l (fs_of (fs_get fs aws_file local_file l)) /\
  (outcome_of (fs_get fs aws_file local_file l) = Done tt ->
   in_sync fs (fs_of (fs_get fs aws_file local_file l)) aws_file local_file).
Proof.
  intros Hm. unfold fs_get.
  destruct (get fs aws_file) as [n|e] eqn:Hget; cbn [fs_of outcome_of fst snd].
  - split.
    + intros a b Hab (k & Hk & Hi). unfold in_sync. cbn [files].
      destruct (decide (local_file = b)) as [<-|Hne].
      * rewrite (mirrored_same_local _ _ _ _ Hab Hm eq_refl).
        exists n. split; [apply lookup_insert_eq | apply Hcons, Hget].
      * exists k. split; [now rewrite lookup_insert_ne | exact Hi].
    + intros _. exists n. unfold in_sync. cbn [files].
      split; [apply lookup_insert_eq | apply Hcons, Hget].
  - split; [apply sync_le_refl | discriminate].
Qed.

Lemma os_makedirs_sync d l : sync_le fs mirror_dir l (fs_of (os_makedirs d l)).
Proof.
  unfold os_makedirs. destruct (files l !! d); cbn [fs_of fst snd].
  - apply sync_le_refl.
  - now apply sync_le_same_files.
Qed.

Lemma download_sync aws_file local_file l :
  mirrored mirror_dir aws_file local_file ->
  sync_le fs mirror_dir l (fs_of (download fs false aws_file local_file l)) /\
  (outcome_of (download fs false aws_file local_file l) = Done tt ->
   in_sync fs (fs_of (download fs false aws_file local_file l)) aws_file local_file).
Proof.
  intros Hm. rewrite download_run.
  pose proof (fs_get_sync aws_file local_file l Hm) as [H1 H2].
  unfold fs_get in H1, H2.
  destruct (get fs aws_file) as [n|e]; cbn [fs_of outcome_of fst snd] in *.
  - split; [exact H1 | exact H2].
  - split; [exact H1 | discriminate].
Qed.

(** Running tasks for mirrored objects keeps everything in sync and, when
    all of them succeed, leaves each of their objects in sync. *)
Lemma compute_sync jobs :
  Forall (fun j : job => mirrored mirror_dir (fst j) (snd j)) jobs ->
  forall l,
    sync_le fs mirror_dir l (fs_of (compute fs false jobs l)) /\
    (outcome_of (compute fs false jobs l) = Done tt ->
     Forall (fun j : job => in_sync fs (fs_of (compute fs false jobs l)) (fst j) (snd j))
       jobs).
Proof.
  induction 1 as [|[a b] jobs Hj Hjobs IH]; intros l.
  - cbn. split; [apply sync_le_refl | constructor].
  - unfold compute. cbn [for_each fst snd]. rewrite bind_run.
    fold (compute fs false jobs).
    destruct (download_sync a b l Hj) as [Hd1 Hd2].
    destruct (download fs false a b l) as [[[[]|e|] l1] t1];
      cbn [outcome_of fs_of trace_of fst snd] in *;
      [|split; [exact Hd1 | discriminate]..].
    destruct (IH l1) as [IH1 IH2].
    split; [eapply sync_le_trans; eassumption|].
    intros Hdone. constructor; [|exact (IH2 Hdone)].
    apply IH1; [exact Hj | exact (Hd2 eq_refl)].
Qed.

End Sync.

Section BucketSync.

Variable fs : remote_store.
Variable mirror_dir : string.
Variables start_time end_time : datetime.
Variable overwrite : bool.
Variable fn_filter : option (string -> bool).
Variables product sat : string.
Variable h : datetime.

Hypothesis Hcons : consistent_store fs.
Hypothesis Hsat : Str.contains "/" sat = false.
Hypothesis Hprod : plain product = true.

Local Abbreviation aws_dir := (aws_dir_of product sat h).
Local Abbreviation local_dir := (local_dir_of mirror_dir product sat h).
Local Abbreviation should_download' :=
  (should_download fs start_time end_time overwrite fn_filter).
Local Abbreviation mirrored_job :=
  (fun j : job => mirrored mirror_dir (fst j) (snd j)).

Lemma bucket_pair_mirrored path :
  mirrored mirror_dir (aws_file_of aws_dir path) (local_file_of local_dir path).
Proof.
  exists (object_key product sat h path).
  split; [apply aws_file_layout | now apply local_file_layout].
Qed.

(** A refused object that the filter and the window accept is in sync. *)
Lemma should_download_false_sync aws_file local_file l l' t :
  accepted start_time end_time fn_filter (basename aws_file) ->
  should_download' aws_file local_file l = (Done false, l', t) ->
  in_sync fs l aws_file local_file.
Proof.
  intros [Hf (ft & Hft & Hle & Hlt)]. rewrite should_download_cases. cbv zeta.
  rewrite Hf, Hft, Hle, Hlt. cbn [andb negb].
  destruct overwrite; [discriminate|].
  destruct (files l !! local_file) as [n|] eqn:Hn; [|discriminate].
  destruct (info_size fs aws_file) as [k|e] eqn:Hk; [|discriminate].
  intros [= Heq _ _]. apply negb_false_iff, Z.eqb_eq in Heq. subst k.
  exists n. split; assumption.
Qed.

(** Without [overwrite], an object in sync is never accepted. *)
Lemma should_download_synced aws_file local_file l :
  overwrite = false -> in_sync fs l aws_file local_file ->
  outcome_of (should_download' aws_file local_file l) <> Done true.
Proof.
  intros Ho (n & Hn & Hi). rewrite should_download_cases. cbv zeta.
  rewrite Ho, Hn, Hi, Z.eqb_refl.
  repeat (match goal with |- context [match ?x with _ => _ end] => destruct x end;
          try discriminate).
Qed.

Lemma collect_jobs_sync paths :
  forall jobs0 l jobs l' t,
    collect_jobs fs start_time end_time overwrite fn_filter aws_dir local_dir
      paths jobs0 l = (Done jobs, l', t) ->
    l' = l /\
    (Forall mirrored_job jobs0 -> Forall mirrored_job jobs) /\
    (forall j, In j jobs0 -> In j jobs) /\
    (forall path, In path paths ->
       accepted start_time end_time fn_filter (basename path) ->
       in_sync fs l (aws_file_of aws_dir path) (local_file_of local_dir path) \/
       In (aws_file_of aws_dir path, local_file_of local_dir path) jobs).
Proof.
  induction paths as [|path rest IH]; intros jobs0 l jobs l' t.
  - cbn. intros [= <- <- _]. repeat split; auto. intros ? [].
  - rewrite collect_jobs_cons, bind_run.
    pose proof (should_download_keeps_fs fs start_time end_time overwrite fn_filter
                  (aws_file_of aws_dir path) (local_file_of local_dir path) l) as Hk.
    pose proof (should_download_false_sync
                  (aws_file_of aws_dir path) (local_file_of local_dir path) l) as Hfalse.
    destruct (should_download' _ _ l) as [[[go|e|] l1] t1]; [|discriminate..].
    cbn in Hk. subst l1.
    destruct go; rewrite bind_run; cbn [emit print];
      cbn [outcome_of fs_of trace_of fst snd].
    + destruct (collect_jobs _ _ _ _ _ _ _ rest _ l) as [[r2 l2] t2] eqn:E.
      cbn [outcome_of fs_of trace_of fst snd]. intros [= -> -> _].
      destruct (IH _ _ _ _ _ E) as (H1 & H2 & H3 & H4).
      split; [exact H1|]. split; [|split].
      * intros HF. apply H2, Forall_app. split; [exact HF|].
        repeat constructor. apply bucket_pair_mirrored.
      * intros j Hj. apply H3, in_or_app. now left.
      * intros p [<-|Hp] Hacc.
        -- right. apply H3, in_or_app. right. now left.
        -- apply H4; assumption.
    + destruct (collect_jobs _ _ _ _ _ _ _ rest _ l) as [[r2 l2] t2] eqn:E.
      cbn [outcome_of fs_of trace_of fst snd]. intros [= -> -> _].
      destruct (IH _ _ _ _ _ E) as (H1 & H2 & H3 & H4).
      split; [exact H1|]. split; [exact H2|]. split; [exact H3|].
      intros p [<-|Hp] Hacc.
      * left. apply (Hfalse l t1); [|reflexivity].
        now rewrite basename_aws_file_of.
      * apply H4; assumption.
Qed.

(** The body for one hour never puts a mirrored object out of sync. *)
Lemma bucket_body_sync_le l :
  sync_le fs mirror_dir l
    (fs_of (bucket_body fs mirror_dir start_time end_time overwrite false fn_filter
              product sat h l)).
Proof.
  unfold bucket_body. cbn [negb]. rewrite bind_run. unfold fs_ls.
  destruct (ls fs aws_dir) as [paths|e]; [|apply sync_le_refl].
  rewrite bind_run. pose proof (os_makedirs_sync fs mirror_dir local_dir l) as Hmk.
  destruct (os_makedirs local_dir l) as [[[[]|e|] l1] t1];
    cbn [outcome_of fs_of trace_of fst snd] in *; try exact Hmk.
  rewrite bind_run.
  destruct (collect_jobs _ _ _ _ _ _ _ paths [] l1) as [[[jobs|e|] l2] t2] eqn:E;
    cbn [outcome_of fs_of trace_of fst snd].
  - destruct (collect_jobs_sync _ _ _ _ _ _ E) as (-> & HF & _).
    eapply sync_le_trans; [exact Hmk|].
    apply (compute_sync fs mirror_dir Hcons jobs (HF ltac:(constructor))).
  - pose proof (collect_jobs_dry fs start_time end_time overwrite fn_filter
                  aws_dir local_dir paths []) as [Hkeep _].
    specialize (Hkeep l1). rewrite E in Hkeep. cbn in Hkeep. now subst l2.
  - pose proof (collect_jobs_dry fs start_time end_time overwrite fn_filter
                  aws_dir local_dir paths []) as [Hkeep _].
    specialize (Hkeep l1). rewrite E in Hkeep. cbn in Hkeep. now subst l2.
Qed.

Lemma bucket_body_synchronises l paths :
  ls fs aws_dir = Ok paths ->
  outcome_of (bucket_body fs mirror_dir start_time end_time overwrite false fn_filter
                product sat h l) = Done tt ->
  forall path, In path paths ->
    accepted start_time end_time fn_filter (basename path) ->
    in_sync fs
      (fs_of (bucket_body fs mirror_dir start_time end_time overwrite false fn_filter
                product sat h l))
      (aws_file_of aws_dir path) (local_file_of local_dir path).
Proof.
  intros Hls. unfold bucket_body. cbn [negb]. rewrite bind_run. unfold fs_ls.
  rewrite Hls. rewrite bind_run.
  pose proof (os_makedirs_sync fs mirror_dir local_dir l) as Hmk.
  destruct (os_makedirs local_dir l) as [[[[]|e|] l1] t1];
    cbn [outcome_of fs_of trace_of fst snd] in *; try discriminate.
  rewrite bind_run.
  destruct (collect_jobs _ _ _ _ _ _ _ paths [] l1) as [[[jobs|e|] l2] t2] eqn:E;
    cbn [outcome_of fs_of trace_of fst snd]; try discriminate.
  destruct (collect_jobs_sync _ _ _ _ _ _ E) as (-> & HF & _ & Hall).
  destruct (compute_sync fs mirror_dir Hcons jobs (HF ltac:(constructor)) l1) as [Hc1 Hc2].
  intros Hdone path Hin Hacc.
  destruct (Hall path Hin Hacc) as [Hsync|Hjob].
  - apply Hc1; [apply bucket_pair_mirrored | exact Hsync].
  - specialize (Hc2 Hdone). rewrite Forall_forall in Hc2.
    apply list_elem_of_In, Hc2 in Hjob. exact Hjob.
Qed.

End BucketSync.

Section SecondRun.

Variable fs : remote_store.
Variable mirror_dir : string.
Variables start_time end_time : datetime.
Variable fn_filter : option (string -> bool).
Variables product sat : string.
Variable h : datetime.

Local Abbreviation aws_dir := (aws_dir_of product sat h).
Local Abbreviation local_dir := (local_dir_of mirror_dir product sat h).

(** When every accepted object of a listing is in sync, the loop over the
    listing creates no task. *)
Lemma collect_jobs_no_tasks paths :
  forall jobs0 l,
    (forall path, In path paths ->
       accepted start_time end_time fn_filter (basename path) ->
       in_sync fs l (aws_file_of aws_dir path) (local_file_of local_dir path)) ->
    task_events (trace_of (collect_jobs fs start_time end_time false fn_filter
                             aws_dir local_dir paths jobs0 l)) = [].
Proof.
  induction paths as [|path rest IH]; intros jobs0 l Hsync; [reflexivity|].
  rewrite collect_jobs_cons, bind_run.
  pose proof (should_download_keeps_fs fs start_time end_time false fn_filter
                (aws_file_of aws_dir path) (local_file_of local_dir path) l) as Hk.
  pose proof (should_download_reads fs start_time end_time false fn_filter
                (aws_file_of aws_dir path) (local_file_of local_dir path) l) as Hr.
  pose proof (should_download_true fs start_time end_time false fn_filter
                (aws_file_of aws_dir path) (local_file_of local_dir path) l) as Htrue.
  pose proof (should_download_synced fs start_time end_time false fn_filter
                (aws_file_of aws_dir path) (local_file_of local_dir path) l eq_refl)
    as Hsynced.
  destruct (should_download _ _ _ _ _ _ _ l) as [[[go|e|] l1] t1];
    cbn in Hk, Hr; apply read_events_no_task in Hr as [Hr1 _];
    [|exact Hr1..].
  subst l1. destruct go.
  - exfalso. destruct (Htrue l t1 eq_refl) as [Hf Hw].
    rewrite basename_aws_file_of in Hf, Hw.
    apply Hsynced; [|reflexivity].
    apply Hsync; [now left | split; assumption].
  - rewrite bind_run. cbn [print emit]. cbn [outcome_of fs_of trace_of fst snd].
    rewrite !task_events_app, Hr1. cbn.
    apply IH. intros p Hp. apply Hsync. now right.
Qed.

Lemma bucket_body_no_tasks l :
  (forall paths, ls fs aws_dir = Ok paths ->
     forall path, In path paths ->
       accepted start_time end_time fn_filter (basename path) ->
       in_sync fs l (aws_file_of aws_dir path) (local_file_of local_dir path)) ->
  let t := trace_of (bucket_body fs mirror_dir start_time end_time false false
                       fn_filter product sat h l) in
  task_events t = [] /\ get_events t = [].
Proof.
  intros Hsync. cbv zeta. unfold bucket_body. cbn [negb]. rewrite bind_run. unfold fs_ls.
  destruct (ls fs aws_dir) as [paths|e] eqn:Hls; [|split; reflexivity].
  rewrite bind_run. unfold os_makedirs.
  destruct (files l !! local_dir) eqn:Hd; [split; reflexivity|].
  rewrite bind_run.
  set (l1 := {| files := files l; dirs := _ |}).
  assert (Hno : task_events
                  (trace_of (collect_jobs fs start_time end_time false fn_filter
                               aws_dir local_dir paths [] l1)) = []).
  { apply collect_jobs_no_tasks. intros path Hin Hacc.
    destruct (Hsync paths eq_refl path Hin Hacc) as (n & Hn & Hi).
    exists n. split; assumption. }
  destruct (collect_jobs_batch fs start_time end_time false fn_filter
              aws_dir local_dir paths [] l1) as [Hnoget Hjobs].
  destruct (collect_jobs _ _ _ _ _ _ _ paths [] l1) as [[[jobs|e|] l2] t2];
    cbn [outcome_of fs_of trace_of fst snd] in *;
    rewrite ?task_events_app, ?get_events_app, ?Hno, ?Hnoget;
    try (split; reflexivity).
  rewrite (Hjobs jobs eq_refl), Hno. split; reflexivity.
Qed.

End SecondRun.

Section NoVanishing.

Variable fs : remote_store.
Variable mirror_dir : string.
Variables start_time end_time : datetime.
Variable overwrite : bool.
Variable fn_filter : option (string -> bool).
Hypothesis Hnv : never_vanishes fs.

(** When no object vanishes, the only [FileNotFoundError] of the body for
    one hour is the one of a missing bucket. *)
Lemma bucket_body_fnf product sat h l :
  outcome_of (bucket_body fs mirror_dir start_time end_time overwrite false
                fn_filter product sat h l) = Raised FileNotFoundError ->
  ls fs (aws_dir_of product sat h) = Err FileNotFoundError.
Proof.
  unfold bucket_body. cbn [negb]. rewrite bind_run. unfold fs_ls.
  destruct (ls fs _) as [paths|e]; [|cbn; congruence].
  rewrite bind_run. unfold os_makedirs. destruct (files l !! _); [discriminate|].
  rewrite bind_run.
  set (l1 := {| files := files l; dirs := _ |}).
  assert (Hcollect : forall ps jobs0 l0,
             outcome_of (collect_jobs fs start_time end_time overwrite fn_filter
                           (aws_dir_of product sat h)
                           (local_dir_of mirror_dir product sat h) ps jobs0 l0)
             <> Raised FileNotFoundError).
  { induction ps as [|p ps IH]; intros jobs0 l0; [discriminate|].
    rewrite collect_jobs_cons, bind_run, should_download_cases. cbv zeta.
    destruct (filter_rejects _ _); [rewrite bind_run; apply IH|].
    destruct (file_time _) as [ft|e] eqn:Eft.
    2:{ cbn. intros [= ->]. apply file_time_error in Eft as [?|?]; discriminate. }
    destruct (negb _); [rewrite bind_run; apply IH|].
    destruct overwrite; [rewrite bind_run; apply IH|].
    destruct (files l0 !! _); [|rewrite bind_run; apply IH].
    destruct (info_size fs _) as [k|e] eqn:Ei.
    - destruct (negb _); rewrite bind_run; apply IH.
    - cbn. intros [= ->]. now apply (Hnv _) in Ei. }
  assert (Hcompute : forall jobs l0,
             outcome_of (compute fs false jobs l0) <> Raised FileNotFoundError).
  { induction jobs as [|[a b] jobs IH]; intros l0; [discriminate|].
    unfold compute. cbn [for_each fst snd]. rewrite bind_run, download_run.
    fold (compute fs false jobs).
    destruct (get fs a) as [n|e] eqn:Eg; [apply IH|].
    cbn. intros [= ->]. now apply (Hnv _) in Eg. }
  specialize (Hcollect paths [] l1).
  destruct (collect_jobs _ _ _ _ _ _ _ paths [] l1) as [[[jobs|e|] l2] t2];
    cbn [outcome_of fs_of trace_of fst snd] in *.
  - intros Hraise. exact (False_ind _ (Hcompute _ _ Hraise)).
  - intros [= ->]. now contradiction Hcollect.
  - discriminate.
Qed.

End NoVanishing.

(** * Idempotence *)

Section Settles.

Variable fs : remote_store.
Variable mirror_dir : string.

Lemma settles_ret : settles fs mirror_dir (ret tt).
Proof.
  split; [intros l; apply sync_le_refl|]. intros l _ l2 _. split; reflexivity.
Qed.

Lemma settles_seq (c1 c2 : M unit) :
  settles fs mirror_dir c1 -> settles fs mirror_dir c2 ->
  settles fs mirror_dir (bind c1 (fun _ => c2)).
Proof.
  intros [Hi1 Hd1] [Hi2 Hd2]. split.
  - intros l. rewrite bind_run. pose proof (Hi1 l) as Hl.
    destruct (c1 l) as [[[[]|e|] l1] t1]; cbn [fs_of outcome_of trace_of fst snd] in *;
      try exact Hl.
    eapply sync_le_trans; [exact Hl | apply Hi2].
  - intros l. rewrite bind_run. pose proof (Hd1 l) as Hl.
    destruct (c1 l) as [[[[]|e|] l1] t1]; cbn [fs_of outcome_of trace_of fst snd] in *;
      try discriminate.
    intros Hdone l2 Hle. rewrite bind_run.
    assert (Hle1 : sync_le fs mirror_dir l1 l2)
      by (eapply sync_le_trans; [apply Hi2 | exact Hle]).
    destruct (Hl eq_refl l2 Hle1) as [Ht Hg].
    pose proof (Hi1 l2) as Hinc.
    destruct (c1 l2) as [[[[]|e|] l3] t3]; cbn [fs_of outcome_of trace_of fst snd] in *;
      try (split; assumption).
    assert (Hle2 : sync_le fs mirror_dir (fs_of (c2 l1)) l3)
      by (eapply sync_le_trans; [exact Hle | exact Hinc]).
    destruct (Hd2 l1 Hdone l3 Hle2) as [Ht2 Hg2].
    rewrite task_events_app, get_events_app, Ht, Hg, Ht2, Hg2. split; reflexivity.
Qed.

Lemma settles_for_each {A} (xs : list A) (body : A -> M unit) :
  (forall x, In x xs -> settles fs mirror_dir (body x)) ->
  settles fs mirror_dir (for_each xs body).
Proof.
  induction xs as [|x xs IH]; intros H; cbn [for_each].
  - apply settles_ret.
  - apply settles_seq; [apply H; now left|].
    apply IH. intros y Hy. apply H. now right.
Qed.

End Settles.

Section Idempotent.

Variable fs : remote_store.
Variable mirror_dir : string.
Variables start_time end_time : datetime.
Variable fn_filter : option (string -> bool).

Hypothesis Hcons : consistent_store fs.
Hypothesis Hnv : never_vanishes fs.

Local Abbreviation after_bucket' :=
  (after_bucket fs mirror_dir start_time end_time false false fn_filter).
Local Abbreviation bucket_body' :=
  (bucket_body fs mirror_dir start_time end_time false false fn_filter).
Local Abbreviation hour_loop' :=
  (hour_loop fs mirror_dir start_time end_time false false fn_filter).

Lemma after_bucket_next product sat h l h' l1 t1 :
  after_bucket' product sat h l = (Done h', l1, t1) -> DT.add_hours h 1 = Ok h'.
Proof.
  unfold after_bucket.
  destruct (bucket_body' product sat h l) as [[[[]|e|] l0] t0];
    [|destruct e|]; destruct (DT.add_hours h 1); congruence.
Qed.

Lemma after_bucket_fs product sat h l :
  fs_of (after_bucket' product sat h l) = fs_of (bucket_body' product sat h l).
Proof.
  unfold after_bucket.
  destruct (bucket_body' product sat h l) as [[[[]|e|] l0] t0];
    [|destruct e|]; destruct (DT.add_hours h 1); reflexivity.
Qed.

Lemma after_bucket_tasks product sat h l :
  task_events (trace_of (after_bucket' product sat h l))
  = task_events (trace_of (bucket_body' product sat h l)) /\
  get_events (trace_of (after_bucket' product sat h l))
  = get_events (trace_of (bucket_body' product sat h l)).
Proof.
  unfold after_bucket.
  destruct (bucket_body' product sat h l) as [[[[]|e|] l0] t0];
    [|destruct e|]; destruct (DT.add_hours h 1);
    cbn [trace_of snd]; rewrite ?task_events_app, ?get_events_app, ?app_nil_r;
    split; reflexivity.
Qed.

(** The outcome of the body behind a loop that goes on. *)
Lemma after_bucket_done product sat h l h' l1 t1 :
  after_bucket' product sat h l = (Done h', l1, t1) ->
  outcome_of (bucket_body' product sat h l) = Done tt \/
  outcome_of (bucket_body' product sat h l) = Raised FileNotFoundError.
Proof.
  unfold after_bucket.
  destruct (bucket_body' product sat h l) as [[[[]|e|] l0] t0];
    [|destruct e|]; destruct (DT.add_hours h 1); cbn; try discriminate; auto.
Qed.

Section Pair.

Variables product sat : string.
Hypothesis Hsat : Str.contains "/" sat = false.
Hypothesis Hprod : plain product = true.

Lemma after_bucket_again h l h' l1 t1 l2 :
  after_bucket' product sat h l = (Done h', l1, t1) ->
  sync_le fs mirror_dir l1 l2 ->
  task_events (trace_of (after_bucket' product sat h l2)) = [] /\
  get_events (trace_of (after_bucket' product sat h l2)) = [].
Proof.
  intros Hab Hle.
  destruct (after_bucket_tasks product sat h l2) as [-> ->].
  apply bucket_body_no_tasks.
  intros paths Hls path Hin Hacc.
  apply Hle; [now apply bucket_pair_mirrored|].
  pose proof (after_bucket_fs product sat h l) as Hfs. rewrite Hab in Hfs.
  cbn in Hfs. subst l1.
  destruct (after_bucket_done _ _ _ _ _ _ _ Hab) as [Hdone|Hfnf].
  - now apply (bucket_body_synchronises fs mirror_dir start_time end_time false
                 fn_filter product sat h Hcons Hsat Hprod l paths).
  - apply (bucket_body_fnf fs mirror_dir start_time end_time false fn_filter Hnv) in Hfnf.
    congruence.
Qed.

Lemma hour_loop_settles last :
  forall fuel h, settles fs mirror_dir (hour_loop' fuel product sat last h).
Proof.
  induction fuel as [|fuel IH]; intros h.
  - split; [intros l; apply sync_le_refl|]. intros l Hd. discriminate.
  - destruct (DT.le h last) eqn:Hle.
    2:{ split.
        - intros l. rewrite hour_loop_exit by exact Hle. apply sync_le_refl.
        - intros l _ l2 _. rewrite hour_loop_exit by exact Hle. split; reflexivity. }
    assert (Hinc : forall l, sync_le fs mirror_dir l
                               (fs_of (after_bucket' product sat h l))).
    { intros l. rewrite after_bucket_fs.
      now apply bucket_body_sync_le. }
    split.
    + intros l. rewrite hour_loop_run by exact Hle. specialize (Hinc l).
      destruct (after_bucket' product sat h l) as [[[h'|e|] l1] t1];
        cbn [fs_of outcome_of trace_of fst snd] in *; try exact Hinc.
      eapply sync_le_trans; [exact Hinc | apply IH].
    + intros l. rewrite hour_loop_run by exact Hle.
      pose proof (after_bucket_again h l) as Hagain.
      pose proof (after_bucket_next product sat h l) as Hnext.
      destruct (after_bucket' product sat h l) as [[[h'|e|] l1] t1];
        cbn [fs_of outcome_of trace_of fst snd] in *; try discriminate.
      intros Hdone l2 Hle2. rewrite hour_loop_run by exact Hle.
      assert (Hle1 : sync_le fs mirror_dir l1 l2)
        by (eapply sync_le_trans; [apply IH | exact Hle2]).
      destruct (Hagain _ _ _ l2 eq_refl Hle1) as [Ht Hg].
      pose proof (after_bucket_next product sat h l2) as Hnext2.
      specialize (Hinc l2).
      destruct (after_bucket' product sat h l2) as [[[h''|e|] l3] t3];
        cbn [fs_of outcome_of trace_of fst snd] in *; try (split; assumption).
      assert (h'' = h') as ->.
      { specialize (Hnext _ _ _ eq_refl). specialize (Hnext2 _ _ _ eq_refl). congruence. }
      assert (Hle3 : sync_le fs mirror_dir
                       (fs_of (hour_loop' fuel product sat last h' l1)) l3)
        by (eapply sync_le_trans; [exact Hle2 | exact Hinc]).
      destruct (proj2 (IH h') l1 Hdone l3 Hle3) as [Ht2 Hg2].
      rewrite task_events_app, get_events_app, Ht, Hg, Ht2, Hg2. split; reflexivity.
Qed.

End Pair.

Lemma mirror_s3_settles products sats :
  Forall (fun p => plain p = true) products ->
  Forall (fun s => Str.contains "/" s = false) sats ->
  settles fs mirror_dir
    (mirror_s3 fs mirror_dir products start_time end_time sats false false fn_filter).
Proof.
  intros Hp Hs. unfold mirror_s3. rewrite Forall_forall in Hp, Hs.
  apply settles_for_each. intros product Hproduct.
  apply settles_for_each. intros sat Hsat.
  apply hour_loop_settles.
  - apply Hs, list_elem_of_In, Hsat.
  - apply Hp, list_elem_of_In, Hproduct.
Qed.

End Idempotent.

Lemma get_events_nil (t : list event) :
  get_events t = [] -> forall a b, ~ In (EvGet a b) t.
Proof.
  induction t as [|e t IH]; intros H a b; [intros []|].
  destruct e; cbn in H; try discriminate;
    (intros [Hin|Hin]; [discriminate Hin | exact (IH H a b Hin)]).
Qed.

(** X14 — a processed bucket is synchronised. Outside dry-run mode, with a
    store that reports for an object the size it transfers, a satellite
    without [/] and a non-empty product without [/]: when the body for one
    hour returns normally, every listed object that the filter and the window
    accept has a local file of the size the store reports, whether it was
    downloaded now or found up to date. *)
Theorem bucket_synchronised fs mirror_dir start_time end_time overwrite fn_filter
    product sat h l paths :
  consistent_store fs -> Str.contains "/" sat = false -> plain product = true ->
  ls fs (aws_dir_of product sat h) = Ok paths ->
  let body := bucket_body fs mirror_dir start_time end_time overwrite false fn_filter
                product sat h l in
  outcome_of body = Done tt ->
  forall path, In path paths ->
    accepted start_time end_time fn_filter (basename path) ->
    in_sync fs (fs_of body)
      (aws_file_of (aws_dir_of product sat h) path)
      (local_file_of (local_dir_of mirror_dir product sat h) path).
Proof.
  intros Hcons Hsat Hprod Hls body Hdone path Hin Hacc.
  now apply (bucket_body_synchronises fs mirror_dir start_time end_time overwrite
               fn_filter product sat h Hcons Hsat Hprod l paths).
Qed.

Lemma scenario_store_consistent : consistent_store Scenario.store.
Proof. intros k n H. exact H. Qed.

Lemma scenario_store_never_vanishes : never_vanishes Scenario.store.
Proof. intros k. split; discriminate. Qed.

Lemma bucket_synchronised_witness :
  let h := Scenario.at_2020_001 5 0 in
  let path := "noaa-goes16/P1/2020/001/05/" +:+ Scenario.in_window_name in
  in_sync Scenario.store
    (fs_of (bucket_body Scenario.store "/data" Scenario.window_start Scenario.window_end
              false false None "P1" "16" h empty_fs))
    (aws_file_of (aws_dir_of "P1" "16" h) path)
    (local_file_of (local_dir_of "/data" "P1" "16" h) path).
Proof.
  intros h path.
  apply (bucket_synchronised Scenario.store "/data" Scenario.window_start
           Scenario.window_end false None "P1" "16" h empty_fs
           [path; "noaa-goes16/P1/2020/001/05/" +:+ Scenario.late_name]
           scenario_store_consistent eq_refl eq_refl eq_refl).
  - vm_compute. reflexivity.
  - left. reflexivity.
  - split; [reflexivity|].
    exists (Scenario.at_2020_001 5 30). repeat split; reflexivity.
Defined.

(** X15 — idempotence. With [overwrite] and [test] off, a store that
    reports for an object the size it transfers and from which no listed
    object vanishes, products that are non-empty names without [/] and
    satellites without [/]: after a run of [mirror_s3] that returns normally,
    a second run with the same arguments creates no download task, starts no
    transfer and leaves the local files as they are. *)
Theorem mirror_idempotent fs mirror_dir products start_time end_time sats fn_filter l :
  consistent_store fs -> never_vanishes fs ->
  Forall (fun p => plain p = true) products ->
  Forall (fun s => Str.contains "/" s = false) sats ->
  let run1 := mirror_s3 fs mirror_dir products start_time end_time sats
                false false fn_filter l in
  outcome_of run1 = Done tt ->
  let run2 := mirror_s3 fs mirror_dir products start_time end_time sats
                false false fn_filter (fs_of run1) in
  task_events (trace_of run2) = [] /\
  get_events (trace_of run2) = [] /\
  files (fs_of run2) = files (fs_of run1).
Proof.
  intros Hcons Hnv Hp Hs run1 Hdone run2.
  destruct (mirror_s3_settles fs mirror_dir start_time end_time fn_filter Hcons Hnv
              products sats Hp Hs) as [_ Hagain].
  destruct (Hagain l Hdone (fs_of run1) (sync_le_refl _ _ _)) as [Ht Hg].
  split; [exact Ht|]. split; [exact Hg|].
  apply map_eq. intros p.
  apply (mirror_s3_only_logged fs mirror_dir products start_time end_time sats
           false false fn_filter (fs_of run1)).
  intros a. apply get_events_nil. exact Hg.
Qed.

Lemma mirror_idempotent_witness :
  let run1 := mirror_s3 Scenario.store "/data" ["P1"] Scenario.window_start
                Scenario.window_end ["16"] false false None empty_fs in
  let run2 := mirror_s3 Scenario.store "/data" ["P1"] Scenario.window_start
                Scenario.window_end ["16"] false false None (fs_of run1) in
  task_events (trace_of run1)
  = [("s3://noaa-goes16/P1/2020/001/05/" +:+ Scenario.in_window_name,
      "/data/noaa-goes16/P1/2020/001/05/" +:+ Scenario.in_window_name)] /\
  task_events (trace_of run2) = [] /\
  get_events (trace_of run2) = [] /\
  files (fs_of run2) = files (fs_of run1).
Proof.
  intros run1 run2. split; [vm_compute; reflexivity|].
  apply (mirror_idempotent Scenario.store "/data" ["P1"] Scenario.window_start
           Scenario.window_end ["16"] None empty_fs
           scenario_store_consistent scenario_store_never_vanishes).
  - repeat constructor.
  - repeat constructor.
  - vm_compute. reflexivity.
Defined.

(** * The moves of [organize_files] *)

Lemma bind_assoc_run {A B C} (m : M A) (f : A -> M B) (g : B -> M C) l :
  bind (bind m f) g l = bind m (fun a => bind (f a) g) l.
Proof.
  unfold bind. destruct (m l) as [[[a|e|] l1] t1]; try reflexivity.
  destruct (f a l1) as [[[b|e|] l2] t2]; try reflexivity.
  destruct (g b l2) as [[r l3] t3]. now rewrite app_assoc.
Qed.

Lemma bind_ext_run {A B} (m : M A) (f g : A -> M B) l :
  (forall a l', f a l' = g a l') -> bind m f l = bind m g l.
Proof.
  intros H. unfold bind. destruct (m l) as [[[a|e|] l1] t1]; try reflexivity.
  now rewrite H.
Qed.

Lemma move_all_app to_dir (c1 c2 : list (string * string)) l :
  move_all to_dir (c1 ++ c2) l
  = bind (move_all to_dir c1) (fun _ => move_all to_dir c2) l.
Proof.
  revert l. induction c1 as [|c c1 IH]; intros l.
  - cbn [app move_all]. unfold bind, ret. cbn.
    destruct (move_all to_dir c2 l) as [[r l1] t1]. reflexivity.
  - cbn [app move_all]. rewrite bind_assoc_run. apply bind_ext_run.
    intros target l1. rewrite bind_assoc_run. apply bind_ext_run.
    intros _ l2. rewrite bind_assoc_run. apply bind_ext_run.
    intros _ l3. apply IH.
Qed.

(** A real pass over one directory is the moves of its candidates. *)
Lemma organize_dir_real to_dir root names (k : M unit) l :
  bind (organize_dir to_dir false root names)
    (fun f => match f with Return => ret tt | Continue => k end) l
  = bind (move_all to_dir
            (map (fun fn => (root, fn))
               (List.filter (fun fn => StrMore.endswith fn ".nc") names)))
      (fun _ => k) l.
Proof.
  revert l. induction names as [|fn rest IH]; intros l.
  - cbn. unfold bind, ret. cbn. destruct (k l) as [[r l1] t1]. reflexivity.
  - cbn [List.filter]. destruct (StrMore.endswith fn ".nc") eqn:E.
    + rewrite organize_dir_candidate by exact E. cbn [map move_all fst snd].
      rewrite !bind_assoc_run. apply bind_ext_run.
      intros target l1. rewrite !bind_assoc_run. apply bind_ext_run.
      intros _ l2. rewrite !bind_assoc_run. apply bind_ext_run.
      intros _ l3. apply IH.
    + rewrite organize_dir_skip by exact E. apply IH.
Qed.

Lemma organize_walk_real to_dir walk l :
  organize_walk to_dir false walk l = move_all to_dir (candidates walk) l.
Proof.
  revert l. induction walk as [|[root names] more IH]; intros l; [reflexivity|].
  cbn [organize_walk candidates flat_map fst snd].
  rewrite organize_dir_real, move_all_app.
  apply bind_ext_run. intros _ l1. apply IH.
Qed.


Section Moves.

Variable to_dir : string.

Local Abbreviation target_ok :=
  (fun c : string * string => exists t, target_of to_dir (snd c) = Ok t).


End Moves.



(** ** Failures and clashes of a real run *)

Lemma target_of_short to_dir fn :
  (length (Str.split "_" fn) <= 3)%nat -> target_of to_dir fn = Err IndexError.
Proof.
  intros H. unfold target_of, StrMore.index.
  now rewrite (lookup_ge_None_2 _ 3%nat) by exact H.
Qed.

Lemma candidates_split w1 root names1 fn names2 w2 :
  StrMore.endswith fn ".nc" = true ->
  candidates (w1 ++ (root, names1 ++ fn :: names2) :: w2)
  = candidates (w1 ++ [(root, names1)]) ++
    (root, fn) :: candidates ((root, names2) :: w2).
Proof.
  intros E. unfold candidates. rewrite !flat_map_app. cbn [flat_map fst snd].
  rewrite List.filter_app. cbn [List.filter]. rewrite E.
  rewrite map_app. cbn [map]. rewrite app_nil_r, <- !app_assoc. reflexivity.
Qed.

(** X17 — a real run of [organize_files] stops at the first candidate
    without a fourth [_]-separated field and undoes nothing. If the walk
    reaches a name [fn] ending in [.nc] with at most three fields, and the
    run over everything the walk yields before [fn] returns normally, then
    the whole call raises [IndexError] in exactly the file system that run
    leaves: the files before [fn] have been moved, [fn] and everything after
    it is where it was. *)
Theorem organize_stops_without_rollback os_walk from_dir to_dir l
    w1 root names1 fn names2 w2 :
  os_walk from_dir = w1 ++ (root, names1 ++ fn :: names2) :: w2 ->
  StrMore.endswith fn ".nc" = true ->
  (length (Str.split "_" fn) <= 3)%nat ->
  let before :=
    organize_files (fun _ => w1 ++ [(root, names1)]) from_dir to_dir false l in
  outcome_of before = Done tt ->
  organize_files os_walk from_dir to_dir false l
  = (Raised IndexError, fs_of before, trace_of before).
Proof.
  intros Hwalk E Hshort before Hdone. subst before.
  unfold organize_files in *. rewrite Hwalk, !organize_walk_real in *.
  rewrite (candidates_split _ _ _ _ _ _ E), move_all_app.
  unfold bind.
  destruct (move_all to_dir (candidates (w1 ++ [(root, names1)])) l)
    as [[[[]|e|] l1] t1]; try discriminate.
  cbn [move_all snd]. rewrite bind_run, (target_of_short _ _ Hshort).
  cbn. now rewrite app_nil_r.
Qed.

Lemma organize_stops_without_rollback_witness :
  let before :=
    organize_files (fun _ => [("/old", [Archive.first_name])])
      "/old" "/new" false Archive.disk in
  organize_files
    (fun d => [(d, [Archive.first_name; "broken.nc"; Archive.second_name])])
    "/old" "/new" false Archive.disk
  = (Raised IndexError, fs_of before, trace_of before).
Proof.
  apply (organize_stops_without_rollback
           (fun d => [(d, [Archive.first_name; "broken.nc"; Archive.second_name])])
           "/old" "/new" Archive.disk [] "/old" [Archive.first_name] "broken.nc"
           [Archive.second_name] []).
  - reflexivity.
  - reflexivity.
  - vm_compute. lia.
  - vm_compute. reflexivity.
Defined.




(** * What a dry run announces *)

Section Preview.

Variable fs : remote_store.
Variable mirror_dir : string.
Variables start_time end_time : datetime.
Variable overwrite : bool.
Variable fn_filter : option (string -> bool).





End Preview.

